(** * SharedWebSocketManager (frontend/src/hooks/useWebSocketManager.ts)

    A shallow embedding of the shared WebSocket connection manager and of
    the part of the browser it talks to (WebSocket objects, timers, the
    console), followed by the properties of the specification.

    Object identity matters in the source: a WebSocket keeps its event
    handlers after the manager forgets it, and the cleanup closure returned
    by [onMessage] keeps the inner [Map] it was created for.  Both kinds of
    object therefore live in a store and are named by references. *)

From stdpp Require Import gmap strings list fin_maps.

Open Scope string_scope.
Open Scope list_scope.

(** ** Data *)

(** [WebSocket.readyState]. *)
Inductive ReadyState := CONNECTING | OPEN | CLOSING | CLOSED.

Global Instance ReadyState_eq_dec : EqDecision ReadyState.
Proof. solve_decision. Defined.

(** The two objects handed to [JSON.stringify] before [ws.send]. *)
Inductive Action := subscribe_action | unsubscribe_action.

Record Frame := { action : Action; channels : list string }.

(** A WebSocket object: the [connectionId] captured by its four event
    handlers, its ready state, and the frames passed to [send] so far. *)
Record WebSocket := {
  connectionId : Z;
  readyState : ReadyState;
  sent : list Frame
}.

(** Values produced by [JSON.parse]. *)
Unset Elimination Schemes.
Inductive JSValue :=
| JNull
| JBool (b : bool)
| JNumber (n : Z)
| JString (s : string)
| JArray (items : list JSValue)
| JObject (fields : list (string * JSValue)).
Set Elimination Schemes.

(** [event.data] of a message event, by what [JSON.parse] does with it. *)
Inductive Payload :=
| NotJSON (raw : string)
| JSONText (v : JSValue).

Inductive Exn :=
| SyntaxError
| TypeError
| HandlerError (h : nat).

Definition JSON_parse (d : Payload) : Exn + JSValue :=
  match d with
  | NotJSON _ => inl SyntaxError
  | JSONText v => inr v
  end.

Fixpoint get_field (k : string) (fields : list (string * JSValue)) : option JSValue :=
  match fields with
  | [] => None
  | (k', v) :: rest => if decide (k' = k) then Some v else get_field k rest
  end.

(** [message.type], as a key for [handlers.get]: reading a property of
    [null] throws; a value that is not a string equals no key of the map. *)
Definition message_type (m : JSValue) : Exn + option string :=
  match m with
  | JNull => inl TypeError
  | JObject fields =>
      match get_field "type" fields with
      | Some (JString t) => inr (Some t)
      | _ => inr None
      end
  | _ => inr None
  end.

(** A callback is known to the manager by its reference only. *)
Definition handler := nat.

(** A JavaScript [Set], in insertion order. *)
Definition Set_add {A} `{EqDecision A} (x : A) (l : list A) : list A :=
  if decide (x ∈ l) then l else l ++ [x].

Definition Set_delete {A} `{EqDecision A} (x : A) (l : list A) : list A :=
  filter (λ y, y ≠ x) l.

Inductive LogEntry :=
| FailedToParse (e : Exn)
| WebSocketError (id : Z).

(** The cleanup closure of [onMessage]: it captures [handlers] (the inner
    map object), [type] and [handler]. *)
Record Token := { tok_handlers : nat; tok_type : string; tok_handler : handler }.

(** The manager's four maps, the objects they point to, and the
    environment: pending timers, the console and the callbacks run. *)
Record World := {
  connections : gmap Z nat;
  messageHandlers : gmap Z nat;
  subscribedChannels : gmap Z (list string);
  reconnectTimeouts : gmap Z nat;
  sockets : list WebSocket;
  handlerMaps : list (gmap string (list handler));
  pendingTimers : gmap nat Z;
  nextTimer : nat;
  console : list LogEntry;
  invoked : list (handler * JSValue)
}.

Definition autoReconnect : bool := true.

Definition init : World := {|
  connections := ∅; messageHandlers := ∅; subscribedChannels := ∅;
  reconnectTimeouts := ∅; sockets := []; handlerMaps := [];
  pendingTimers := ∅; nextTimer := 1; console := []; invoked := []
|}.

(** ** Field updates *)

Definition with_connections (f : gmap Z nat → gmap Z nat) (w : World) : World :=
  {| connections := f (connections w); messageHandlers := messageHandlers w;
     subscribedChannels := subscribedChannels w;
     reconnectTimeouts := reconnectTimeouts w; sockets := sockets w;
     handlerMaps := handlerMaps w; pendingTimers := pendingTimers w;
     nextTimer := nextTimer w; console := console w; invoked := invoked w |}.

Definition with_messageHandlers (f : gmap Z nat → gmap Z nat) (w : World) : World :=
  {| connections := connections w; messageHandlers := f (messageHandlers w);
     subscribedChannels := subscribedChannels w;
     reconnectTimeouts := reconnectTimeouts w; sockets := sockets w;
     handlerMaps := handlerMaps w; pendingTimers := pendingTimers w;
     nextTimer := nextTimer w; console := console w; invoked := invoked w |}.

Definition with_subscribedChannels
    (f : gmap Z (list string) → gmap Z (list string)) (w : World) : World :=
  {| connections := connections w; messageHandlers := messageHandlers w;
     subscribedChannels := f (subscribedChannels w);
     reconnectTimeouts := reconnectTimeouts w; sockets := sockets w;
     handlerMaps := handlerMaps w; pendingTimers := pendingTimers w;
     nextTimer := nextTimer w; console := console w; invoked := invoked w |}.

Definition with_reconnectTimeouts (f : gmap Z nat → gmap Z nat) (w : World) : World :=
  {| connections := connections w; messageHandlers := messageHandlers w;
     subscribedChannels := subscribedChannels w;
     reconnectTimeouts := f (reconnectTimeouts w); sockets := sockets w;
     handlerMaps := handlerMaps w; pendingTimers := pendingTimers w;
     nextTimer := nextTimer w; console := console w; invoked := invoked w |}.

Definition with_sockets (f : list WebSocket → list WebSocket) (w : World) : World :=
  {| connections := connections w; messageHandlers := messageHandlers w;
     subscribedChannels := subscribedChannels w;
     reconnectTimeouts := reconnectTimeouts w; sockets := f (sockets w);
     handlerMaps := handlerMaps w; pendingTimers := pendingTimers w;
     nextTimer := nextTimer w; console := console w; invoked := invoked w |}.

Definition with_handlerMaps
    (f : list (gmap string (list handler)) → list (gmap string (list handler)))
    (w : World) : World :=
  {| connections := connections w; messageHandlers := messageHandlers w;
     subscribedChannels := subscribedChannels w;
     reconnectTimeouts := reconnectTimeouts w; sockets := sockets w;
     handlerMaps := f (handlerMaps w); pendingTimers := pendingTimers w;
     nextTimer := nextTimer w; console := console w; invoked := invoked w |}.

Definition with_timers (f : gmap nat Z → gmap nat Z) (n : nat) (w : World) : World :=
  {| connections := connections w; messageHandlers := messageHandlers w;
     subscribedChannels := subscribedChannels w;
     reconnectTimeouts := reconnectTimeouts w; sockets := sockets w;
     handlerMaps := handlerMaps w; pendingTimers := f (pendingTimers w);
     nextTimer := n; console := console w; invoked := invoked w |}.

Definition with_console (f : list LogEntry → list LogEntry) (w : World) : World :=
  {| connections := connections w; messageHandlers := messageHandlers w;
     subscribedChannels := subscribedChannels w;
     reconnectTimeouts := reconnectTimeouts w; sockets := sockets w;
     handlerMaps := handlerMaps w; pendingTimers := pendingTimers w;
     nextTimer := nextTimer w; console := f (console w); invoked := invoked w |}.

Definition with_invoked
    (f : list (handler * JSValue) → list (handler * JSValue)) (w : World) : World :=
  {| connections := connections w; messageHandlers := messageHandlers w;
     subscribedChannels := subscribedChannels w;
     reconnectTimeouts := reconnectTimeouts w; sockets := sockets w;
     handlerMaps := handlerMaps w; pendingTimers := pendingTimers w;
     nextTimer := nextTimer w; console := console w; invoked := f (invoked w) |}.

(** ** The browser side *)

(** The two ways in which a WebSocket object changes. *)
Definition set_readyState (st : ReadyState) (s : WebSocket) : WebSocket :=
  {| connectionId := connectionId s; readyState := st; sent := sent s |}.

Definition push_frame (f : Frame) (s : WebSocket) : WebSocket :=
  {| connectionId := connectionId s; readyState := readyState s;
     sent := sent s ++ [f] |}.

(** [ws.close()] with no argument: starts closing a socket that is
    connecting or open, does nothing otherwise, never throws.  The close
    event comes later, as [ev_close]. *)
Definition ws_close (r : nat) (w : World) : World :=
  match sockets w !! r with
  | Some s =>
      match readyState s with
      | CONNECTING | OPEN => with_sockets (alter (set_readyState CLOSING) r) w
      | CLOSING | CLOSED => w
      end
  | None => w
  end.

(** [ws.send(text)]: every call in the source is made on a socket that is
    [OPEN] (guarded by [readyState === WebSocket.OPEN], or inside
    [onopen]), where the frame goes out.  A socket that is closing or closed
    discards the data; the source never reaches [send] on a connecting
    socket, where it would throw. *)
Definition ws_send (r : nat) (f : Frame) (w : World) : World :=
  match sockets w !! r with
  | Some s =>
      match readyState s with
      | OPEN => with_sockets (alter (push_frame f) r) w
      | _ => w
      end
  | None => w
  end.

(** [new WebSocket(wsUrl)]: the reference of the new object is the next
    free index of the store. *)
Definition new_WebSocket (id : Z) (w : World) : nat * World :=
  (length (sockets w),
   with_sockets
     (λ l, l ++ [{| connectionId := id; readyState := CONNECTING; sent := [] |}]) w).

(** [setTimeout(callback, this.reconnectInterval)]: timer handles are
    positive numbers, never reused.  Time is not modelled: a pending timer
    fires when the environment delivers [ev_timer]. *)
Definition setTimeout (id : Z) (w : World) : nat * World :=
  (nextTimer w, with_timers (insert (nextTimer w) id) (S (nextTimer w)) w).

Definition clearTimeout (t : nat) (w : World) : World :=
  with_timers (delete t) (nextTimer w) w.

Definition readyState_of (w : World) (o : option nat) : option ReadyState :=
  o ≫= λ r, readyState <$> (sockets w !! r).

(** ** The manager *)

Section Manager.

(** What a callback does when it is called with a message: it returns, or
    it throws.  A callback does not call the manager while it runs. *)
Variable throws : handler → JSValue → bool.

(** [connect(connectionId)], the part that runs at once. *)
Definition connect (id : Z) (w : World) : World :=
  let existing := connections w !! id in
  match readyState_of w existing with
  | Some OPEN | Some CONNECTING => w
  | _ =>
      let w1 := match existing with Some r => ws_close r w | None => w end in
      let w2 := match reconnectTimeouts w1 !! id with
                | Some t => with_reconnectTimeouts (delete id) (clearTimeout t w1)
                | None => w1
                end in
      let '(ws, w3) := new_WebSocket id w2 in
      with_connections (insert id ws) w3
  end.

(** [ws.onopen], for the socket [ws] created by [connect(id)]. *)
Definition onopen (ws : nat) (id : Z) (w : World) : World :=
  let w1 := with_connections (insert id ws) w in
  match subscribedChannels w1 !! id with
  | Some (c :: cs) =>
      ws_send ws {| action := subscribe_action; channels := c :: cs |} w1
  | _ => w1
  end.

(** [set.forEach(handler => handler(message))]: the calls made, and the
    exception that ended the loop if a callback threw. *)
Fixpoint forEach_handler (hs : list handler) (m : JSValue)
  : list (handler * JSValue) * option Exn :=
  match hs with
  | [] => ([], None)
  | h :: rest =>
      if throws h m then ([(h, m)], Some (HandlerError h))
      else let '(calls, e) := forEach_handler rest m in ((h, m) :: calls, e)
  end.

(** [handlers.get(key)] followed by [if (set) set.forEach(...)]. *)
Definition call_handlers (hm : gmap string (list handler)) (key : option string)
    (m : JSValue) : list (handler * JSValue) * option Exn :=
  match key ≫= λ k, hm !! k with
  | Some hs => forEach_handler hs m
  | None => ([], None)
  end.

(** The [try] block of [ws.onmessage]. *)
Definition onmessage_try (id : Z) (d : Payload) (w : World)
  : list (handler * JSValue) * option Exn :=
  match JSON_parse d with
  | inl e => ([], Some e)
  | inr message =>
      match messageHandlers w !! id ≫= λ r, handlerMaps w !! r with
      | Some handlers =>
          match message_type message with
          | inl e => ([], Some e)
          | inr key =>
              match call_handlers handlers key message with
              | (calls, Some e) => (calls, Some e)
              | (calls, None) =>
                  let '(calls', e) := call_handlers handlers (Some "all") message in
                  (calls ++ calls', e)
              end
          end
      | None => ([], None)
      end
  end.

(** [ws.onmessage]: the [catch] clause logs whatever the block threw. *)
Definition onmessage (id : Z) (d : Payload) (w : World) : World :=
  let '(calls, e) := onmessage_try id d w in
  let w1 := with_invoked (λ l, l ++ calls) w in
  match e with
  | Some err => with_console (λ l, l ++ [FailedToParse err]) w1
  | None => w1
  end.

Definition onerror (id : Z) (w : World) : World :=
  with_console (λ l, l ++ [WebSocketError id]) w.

(** [ws.onclose]. *)
Definition onclose (id : Z) (w : World) : World :=
  let w1 := with_connections (delete id) w in
  if autoReconnect then
    let '(timeout, w2) := setTimeout id w1 in
    with_reconnectTimeouts (insert id timeout) w2
  else w1.

Definition disconnect (id : Z) (w : World) : World :=
  let w1 := match reconnectTimeouts w !! id with
            | Some t => with_reconnectTimeouts (delete id) (clearTimeout t w)
            | None => w
            end in
  let w2 := match connections w1 !! id with
            | Some ws => with_connections (delete id) (ws_close ws w1)
            | None => w1
            end in
  with_subscribedChannels (delete id) (with_messageHandlers (delete id) w2).

Definition subscribe (id : Z) (chs : list string) (w : World) : World :=
  let w1 := match subscribedChannels w !! id with
            | Some _ => w
            | None => with_subscribedChannels (insert id []) w
            end in
  let w2 := with_subscribedChannels
              (alter (λ channelSet, foldl (λ s ch, Set_add ch s) channelSet chs) id) w1 in
  let ws := connections w2 !! id in
  match readyState_of w2 ws, ws with
  | Some OPEN, Some r =>
      ws_send r {| action := subscribe_action; channels := chs |} w2
  | _, _ => connect id w2
  end.

Definition unsubscribe (id : Z) (chs : list string) (w : World) : World :=
  let w1 := with_subscribedChannels
              (alter (λ channelSet, foldl (λ s ch, Set_delete ch s) channelSet chs) id) w in
  let ws := connections w1 !! id in
  match readyState_of w1 ws, ws with
  | Some OPEN, Some r =>
      ws_send r {| action := unsubscribe_action; channels := chs |} w1
  | _, _ => w1
  end.

(** [onMessage(connectionId, type, handler)]: the new state and the cleanup
    closure.  [add_handler] is the part that works on the inner map. *)
Definition add_handler (type : string) (h : handler)
    (handlers : gmap string (list handler)) : gmap string (list handler) :=
  let handlers1 := match handlers !! type with
                   | Some _ => handlers
                   | None => <[type := []]> handlers
                   end in
  alter (Set_add h) type handlers1.

Definition onMessage (id : Z) (type : string) (h : handler) (w : World)
  : World * Token :=
  let '(handlers, w1) :=
    match messageHandlers w !! id with
    | Some r => (r, w)
    | None =>
        (length (handlerMaps w),
         with_messageHandlers (insert id (length (handlerMaps w)))
           (with_handlerMaps (λ l, l ++ [∅]) w))
    end in
  (with_handlerMaps (alter (add_handler type h) handlers) w1,
   {| tok_handlers := handlers; tok_type := type; tok_handler := h |}).

(** Calling the cleanup closure. *)
Definition cleanup (tok : Token) (w : World) : World :=
  with_handlerMaps
    (alter (alter (Set_delete (tok_handler tok)) (tok_type tok)) (tok_handlers tok)) w.

Definition isConnected (id : Z) (w : World) : bool :=
  match readyState_of w (connections w !! id) with
  | Some OPEN => true
  | _ => false
  end.

(** ** Events *)

(** The open event of socket [ws]: fired once, when a connecting socket
    becomes open. *)
Definition ev_open (ws : nat) (w : World) : World :=
  match sockets w !! ws with
  | Some s =>
      match readyState s with
      | CONNECTING =>
          onopen ws (connectionId s) (with_sockets (alter (set_readyState OPEN) ws) w)
      | _ => w
      end
  | None => w
  end.

(** A message event: delivered to an open socket only. *)
Definition ev_message (ws : nat) (d : Payload) (w : World) : World :=
  match sockets w !! ws with
  | Some s =>
      match readyState s with
      | OPEN => onmessage (connectionId s) d w
      | _ => w
      end
  | None => w
  end.

Definition ev_error (ws : nat) (w : World) : World :=
  match sockets w !! ws with
  | Some s =>
      match readyState s with
      | CLOSED => w
      | _ => onerror (connectionId s) w
      end
  | None => w
  end.

(** The close event: fired once for every socket that fails to connect,
    loses its connection, or was closed with [close()]. *)
Definition ev_close (ws : nat) (w : World) : World :=
  match sockets w !! ws with
  | Some s =>
      match readyState s with
      | CLOSED => w
      | _ => onclose (connectionId s) (with_sockets (alter (set_readyState CLOSED) ws) w)
      end
  | None => w
  end.

(** A pending timer fires: its callback is [() => this.connect(id)]. *)
Definition ev_timer (t : nat) (w : World) : World :=
  match pendingTimers w !! t with
  | Some id => connect id (with_timers (delete t) (nextTimer w) w)
  | None => w
  end.

Inductive Input :=
| Connect (id : Z)
| Disconnect (id : Z)
| Subscribe (id : Z) (chs : list string)
| Unsubscribe (id : Z) (chs : list string)
| OnMessage (id : Z) (type : string) (h : handler)
| Cleanup (tok : Token)
| Open (ws : nat)
| Message (ws : nat) (d : Payload)
| Error (ws : nat)
| Close (ws : nat)
| Timer (t : nat).

Definition step (w : World) (i : Input) : World :=
  match i with
  | Connect id => connect id w
  | Disconnect id => disconnect id w
  | Subscribe id chs => subscribe id chs w
  | Unsubscribe id chs => unsubscribe id chs w
  | OnMessage id type h => fst (onMessage id type h w)
  | Cleanup tok => cleanup tok w
  | Open ws => ev_open ws w
  | Message ws d => ev_message ws d w
  | Error ws => ev_error ws w
  | Close ws => ev_close ws w
  | Timer t => ev_timer t w
  end.

Definition run (w : World) (l : list Input) : World := foldl step w l.

Definition reachable (w : World) : Prop := ∃ l, w = run init l.

End Manager.

(** ** Observations *)

(** A transport is live while it is connecting or open. *)
Definition live (s : WebSocket) : bool :=
  match readyState s with
  | CONNECTING | OPEN => true
  | CLOSING | CLOSED => false
  end.

(** The live transports that exist for a connection id, whether or not
    the manager still holds them in [connections]. *)
Definition live_transports (w : World) (id : Z) : list WebSocket :=
  filter (λ s, connectionId s = id ∧ live s = true) (sockets w).

(** The frames sent on socket [ws] so far. *)
Definition sent_on (w : World) (ws : nat) : list Frame :=
  default [] (sent <$> sockets w !! ws).

(** The inner map registered for [id], if any. *)
Definition registry (w : World) (id : Z) : option (gmap string (list handler)) :=
  messageHandlers w !! id ≫= λ r, handlerMaps w !! r.

(** The callbacks registered for [id] under [key], in the order in which
    [forEach] visits them. *)
Definition handlers_of (w : World) (id : Z) (key : string) : list handler :=
  default [] (registry w id ≫= λ hm, hm !! key).

(** How many times callback [h] occurs in a list of calls. *)
Definition calls_to (h : handler) (calls : list (handler * JSValue)) : nat :=
  length (filter (λ c, c.1 = h) calls).

(** The object [{ action: 'subscribe', channels }]. *)
Definition subscribe_frame (chs : list string) : Frame :=
  {| action := subscribe_action; channels := chs |}.

(** A callback environment in which every callback returns. *)
Definition all_return : handler → JSValue → bool := λ _ _, false.

(** The channel set after [channels.forEach(ch => channelSet.add(ch))]. *)
Definition add_channels (channelSet chs : list string) : list string :=
  foldl (λ s ch, Set_add ch s) channelSet chs.

(** The calls that [forEach] makes when every callback returns. *)
Definition calls_for (m : JSValue) (hs : list handler) : list (handler * JSValue) :=
  map (λ h, (h, m)) hs.

(** How many times callback [h] occurs in a list of callbacks. *)
Definition occurrences (h : handler) (hs : list handler) : nat :=
  length (filter (λ x, x = h) hs).

(** The events of the connection life cycle. *)
Definition lifecycle (i : Input) : Prop :=
  match i with
  | Connect _ | Open _ | Message _ _ | Error _ | Close _ | Timer _ => True
  | _ => False
  end.

(** What the manager holds for one id: its transport, its reconnect timer
    (and whether that timer is still pending), its subscription set and its
    handler registry. *)
Definition id_state (w : World) (id : Z) :
    option nat * option WebSocket * option nat * option Z
    * option (list string) * option (gmap string (list handler)) :=
  (connections w !! id,
   connections w !! id ≫= (λ r, sockets w !! r),
   reconnectTimeouts w !! id,
   reconnectTimeouts w !! id ≫= (λ t, pendingTimers w !! t),
   subscribedChannels w !! id,
   registry w id).

(** ** The specification's reading of [subscribe] *)

(** The reading of the specification: the frame lists the channels of the
    call that the subscription set did not hold yet, and no frame is sent
    when there is none. *)
Definition spec_delta (channelSet chs : list string) : list string :=
  filter (λ c, c ∉ channelSet) chs.

Definition spec_subscribe_frames (channelSet chs : list string) : list Frame :=
  match spec_delta channelSet chs with
  | [] => []
  | d => [subscribe_frame d]
  end.

Definition subscribe_sends_delta (w : World) (id : Z) (chs : list string) : Prop :=
  ∀ ws s, connections w !! id = Some ws → sockets w !! ws = Some s →
    readyState s = OPEN →
    sent_on (subscribe id chs w) ws
      = sent_on w ws
        ++ spec_subscribe_frames (default [] (subscribedChannels w !! id)) chs.

(** ** Invariants *)

(** Nothing has been sent on a socket that is still connecting. *)
Definition sent_ok (s : WebSocket) : Prop :=
  readyState s = CONNECTING → sent s = [].

(** Every entry of [connections] names a socket created for that id. *)
Definition conn_ok (c : gmap Z nat) (l : list WebSocket) : Prop :=
  ∀ id r, c !! id = Some r → ∃ s, l !! r = Some s ∧ connectionId s = id.

(** Timer handles held in [reconnectTimeouts] were handed out already, and
    no two ids hold the same handle. *)
Definition timer_ok (rt : gmap Z nat) (n : nat) : Prop :=
  (∀ id t, rt !! id = Some t → (t < n)%nat)
  ∧ (∀ id id' t, rt !! id = Some t → rt !! id' = Some t → id = id').

(** Handler sets hold each callback once. *)
Definition sets_ok (hms : list (gmap string (list handler))) : Prop :=
  ∀ r hm t l, hms !! r = Some hm → hm !! t = Some l → NoDup l.

(** Every entry of [messageHandlers] names an inner map of the store. *)
Definition reg_ok (mh : gmap Z nat) (hms : list (gmap string (list handler))) : Prop :=
  ∀ id r, mh !! id = Some r → (r < length hms)%nat.

Record Inv (w : World) : Prop := {
  inv_sent : Forall sent_ok (sockets w);
  inv_conn : conn_ok (connections w) (sockets w);
  inv_timer : timer_ok (reconnectTimeouts w) (nextTimer w);
  inv_sets : sets_ok (handlerMaps w);
  inv_reg : reg_ok (messageHandlers w) (handlerMaps w)
}.

(** ** Further observations *)

(** The object [{ action: 'unsubscribe', channels }]. *)
Definition unsubscribe_frame (chs : list string) : Frame :=
  {| action := unsubscribe_action; channels := chs |}.

(** The channel set after [channels.forEach(ch => channelSet.delete(ch))]. *)
Definition remove_channels (channelSet chs : list string) : list string :=
  foldl (λ s ch, Set_delete ch s) channelSet chs.

(** The ready states of all sockets created so far. *)
Definition ready_states (w : World) : list ReadyState :=
  readyState <$> sockets w.

(** The object that [new WebSocket(wsUrl)] creates for [id]. *)
Definition fresh_socket (id : Z) : WebSocket :=
  {| connectionId := id; readyState := CONNECTING; sent := [] |}.

(** The id has a registered transport, created for it, that is connecting
    or open. *)
Definition has_live_transport (w : World) (id : Z) : Prop :=
  ∃ ws s, connections w !! id = Some ws ∧ sockets w !! ws = Some s
          ∧ connectionId s = id ∧ live s = true.

(** One round of failure and retry: the registered transport of [id] is
    lost and the reconnect timer armed by its [onclose] fires. *)
Definition reconnect_round (id : Z) (w : World) : World :=
  match connections w !! id with
  | Some ws => ev_timer (nextTimer w) (ev_close ws w)
  | None => w
  end.

(** No two ids share an inner map. *)
Definition reg_inj (mh : gmap Z nat) : Prop :=
  ∀ id id' r, mh !! id = Some r → mh !! id' = Some r → id = id'.

(** ** The [useWebSocket] hook (hooks/useWebSocket.ts)

    What the mount effect of the hook and its cleanup function do to the
    manager, for a component that uses connection [id] with [channels]. *)

(** The effect body: [if (!wsManager.isConnected(id)) wsManager.connect(id)],
    then [if (channels.length > 0) wsManager.subscribe(id, channels)].  The
    status poll that the effect also starts only reads [isConnected] into
    React state and is left out. *)
Definition useWebSocket_mount (id : Z) (chs : list string) (w : World) : World :=
  let w1 := if isConnected id w then w else connect id w in
  match chs with
  | [] => w1
  | _ :: _ => subscribe id chs w1
  end.

(** The cleanup function of the effect: unsubscribe from the component's
    channels, then call every cleanup closure collected in [cleanupRef]. *)
Definition useWebSocket_unmount (id : Z) (chs : list string) (cleanups : list Token)
    (w : World) : World :=
  let w1 := match chs with
            | [] => w
            | _ :: _ => unsubscribe id chs w
            end in
  foldl (λ w' tok, cleanup tok w') w1 cleanups.

(** * Properties *)

(** ** [connect] while a transport is live *)

Lemma connect_live_noop (w : World) (id : Z) (ws : nat) (s : WebSocket) :
  connections w !! id = Some ws →
  sockets w !! ws = Some s →
  live s = true →
  connect id w = w.
Proof.
  intros Hc Hs Hl. unfold connect, readyState_of.
  rewrite Hc. simpl. rewrite Hs. simpl.
  unfold live in Hl. destruct (readyState s); done.
Qed.

Lemma connect_repeat_noop (w : World) (id : Z) (ws : nat) (s : WebSocket) (n : nat) :
  connections w !! id = Some ws →
  sockets w !! ws = Some s →
  live s = true →
  Nat.iter n (connect id) w = w.
Proof.
  intros Hc Hs Hl. induction n as [|n IH]; simpl; [done|].
  rewrite IH. by eapply connect_live_noop.
Qed.

(** ** A socket closed by [disconnect] still runs its [onclose] *)

(** C1 (at most one live transport per id).  The manager opens a
    connection for id 1, the consumer disconnects and connects again before
    the close event of the first socket arrives.  That close event runs the
    first socket's [onclose], which removes the *second* socket from
    [connections] and arms the reconnect timer; when the timer fires,
    [connect] finds no entry and opens a third socket.  Two transports for
    id 1 are then connecting at the same time. *)
Theorem C1_two_live_transports (throws : handler → JSValue → bool) :
  let trace := [Connect 1; Open 0; Disconnect 1; Connect 1; Close 0; Timer 1] in
  let w := run throws init trace in
  live_transports w 1 =
    [ {| connectionId := 1; readyState := CONNECTING; sent := [] |};
      {| connectionId := 1; readyState := CONNECTING; sent := [] |} ]
  ∧ connections w !! 1%Z = Some 2%nat
  ∧ length (live_transports w 1) = 2%nat.
Proof. vm_compute. done. Qed.

(** C2 (no reconnection after an explicit disconnect).  After
    [disconnect(1)] the id has no transport and no timer; the close event of
    the socket that [disconnect] closed then arms a reconnect timer, and
    when it fires a new transport is opened although no consumer called
    [connect] or [subscribe]. *)
Theorem C2_reconnect_after_disconnect (throws : handler → JSValue → bool) :
  let w0 := run throws init [Connect 1; Open 0; Disconnect 1] in
  let w1 := ev_close 0 w0 in
  let w2 := ev_timer 1 w1 in
  (connections w0 !! 1%Z = None ∧ reconnectTimeouts w0 !! 1%Z = None)
  ∧ (reconnectTimeouts w1 !! 1%Z = Some 1%nat ∧ pendingTimers w1 !! 1%nat = Some 1%Z)
  ∧ (connections w2 !! 1%Z = Some 1%nat
     ∧ sockets w2 !! 1%nat
         = Some {| connectionId := 1; readyState := CONNECTING; sent := [] |}).
Proof. vm_compute. done. Qed.

(** ** [subscribe] on an open connection *)

Lemma Set_add_elem {A} `{EqDecision A} (x : A) (l : list A) :
  x ∈ l → Set_add x l = l.
Proof. intros Hx. unfold Set_add. by rewrite decide_True. Qed.

Lemma elem_of_Set_add {A} `{EqDecision A} (x y : A) (l : list A) :
  y ∈ Set_add x l ↔ y = x ∨ y ∈ l.
Proof.
  unfold Set_add. destruct (decide (x ∈ l)) as [Hx|Hx].
  - split; [by right|]. intros [->|Hy]; done.
  - rewrite elem_of_app, list_elem_of_singleton. tauto.
Qed.

Lemma NoDup_Set_add {A} `{EqDecision A} (x : A) (l : list A) :
  NoDup l → NoDup (Set_add x l).
Proof.
  intros Hl. unfold Set_add. destruct (decide (x ∈ l)) as [Hx|Hx]; [done|].
  apply NoDup_app. split_and!; [done| |apply NoDup_singleton].
  intros y Hy Hy'. apply list_elem_of_singleton in Hy'. by subst.
Qed.

Lemma elem_of_Set_delete {A} `{EqDecision A} (x y : A) (l : list A) :
  y ∈ Set_delete x l ↔ y ≠ x ∧ y ∈ l.
Proof. unfold Set_delete. by rewrite list_elem_of_filter. Qed.

Lemma NoDup_Set_delete {A} `{EqDecision A} (x : A) (l : list A) :
  NoDup l → NoDup (Set_delete x l).
Proof. apply NoDup_filter. Qed.

Lemma Set_delete_idemp {A} `{EqDecision A} (x : A) (l : list A) :
  Set_delete x (Set_delete x l) = Set_delete x l.
Proof.
  unfold Set_delete. induction l as [|a l IH]; [done|].
  rewrite (filter_cons _ a l). destruct (decide (a ≠ x)) as [Ha|Ha].
  - rewrite filter_cons, decide_True by done. by rewrite IH.
  - done.
Qed.

Lemma elem_of_add_channels (channelSet chs : list string) (c : string) :
  c ∈ add_channels channelSet chs ↔ c ∈ channelSet ∨ c ∈ chs.
Proof.
  unfold add_channels. revert channelSet.
  induction chs as [|ch chs IH]; intros channelSet; simpl.
  - rewrite elem_of_nil. tauto.
  - rewrite IH, elem_of_Set_add, elem_of_cons. tauto.
Qed.

Lemma add_channels_present (channelSet chs : list string) :
  (∀ c, c ∈ chs → c ∈ channelSet) → add_channels channelSet chs = channelSet.
Proof.
  unfold add_channels. induction chs as [|ch chs IH]; intros Hin; simpl; [done|].
  rewrite Set_add_elem by (apply Hin; left).
  apply IH. intros c Hc. apply Hin. by right.
Qed.

Lemma add_channels_twice (channelSet chs : list string) :
  add_channels (add_channels channelSet chs) chs = add_channels channelSet chs.
Proof.
  apply add_channels_present. intros c Hc.
  apply elem_of_add_channels. by right.
Qed.

(** What [subscribe] does when [connections] holds an open socket. *)
Lemma subscribe_open (w : World) (id : Z) (chs : list string) (ws : nat) (s : WebSocket) :
  connections w !! id = Some ws →
  sockets w !! ws = Some s →
  readyState s = OPEN →
  subscribe id chs w =
    with_sockets (alter (push_frame (subscribe_frame chs)) ws)
      (with_subscribedChannels
         (insert id (add_channels (default [] (subscribedChannels w !! id)) chs)) w).
Proof.
  intros Hc Hs Ho. unfold subscribe.
  destruct (subscribedChannels w !! id) as [cs|] eqn:Hsub; simpl;
    unfold readyState_of; simpl; rewrite Hc; simpl; rewrite Hs; simpl; rewrite Ho;
    unfold ws_send; simpl; rewrite Hs, Ho; unfold with_sockets; simpl; f_equal.
  - apply map_eq. intros i. destruct (decide (i = id)) as [->|Hne].
    + by rewrite lookup_alter_eq, lookup_insert_eq, Hsub.
    + by rewrite lookup_alter_ne, lookup_insert_ne.
  - apply map_eq. intros i. destruct (decide (i = id)) as [->|Hne].
    + by rewrite lookup_alter_eq, !lookup_insert_eq.
    + by rewrite lookup_alter_ne, !lookup_insert_ne.
Qed.

Lemma sent_on_push (w : World) (ws : nat) (s : WebSocket) (f : Frame) g :
  sockets w !! ws = Some s →
  sent_on (with_sockets (alter (push_frame f) ws) (with_subscribedChannels g w)) ws
    = sent_on w ws ++ [f].
Proof.
  intros Hs. unfold sent_on. simpl.
  rewrite list_lookup_alter_eq, Hs. done.
Qed.

(** C3, as the code has it: on an open connection [subscribe(id, channels)]
    sends one subscribe frame whose channels are the argument of the call,
    as given; the subscription set becomes the union of the old set and the
    argument.  A second identical call leaves the set as it is and sends the
    same frame again; no transport is created. *)
Theorem C3_subscribe_sends_requested
    (w : World) (id : Z) (chs : list string) (ws : nat) (s : WebSocket) :
  connections w !! id = Some ws →
  sockets w !! ws = Some s →
  readyState s = OPEN →
  let w1 := subscribe id chs w in
  let w2 := subscribe id chs w1 in
  sent_on w1 ws = sent_on w ws ++ [subscribe_frame chs]
  ∧ (∀ c, c ∈ default [] (subscribedChannels w1 !! id)
          ↔ c ∈ default [] (subscribedChannels w !! id) ∨ c ∈ chs)
  ∧ subscribedChannels w2 = subscribedChannels w1
  ∧ sent_on w2 ws = sent_on w ws ++ [subscribe_frame chs; subscribe_frame chs]
  ∧ connections w2 = connections w
  ∧ length (sockets w2) = length (sockets w).
Proof.
  intros Hc Hs Ho w1 w2.
  assert (E1 : w1 = with_sockets (alter (push_frame (subscribe_frame chs)) ws)
      (with_subscribedChannels
         (insert id (add_channels (default [] (subscribedChannels w !! id)) chs)) w))
    by (by eapply subscribe_open).
  assert (Hc1 : connections w1 !! id = Some ws) by (by rewrite E1).
  assert (Hs1 : sockets w1 !! ws = Some (push_frame (subscribe_frame chs) s)).
  { rewrite E1. simpl. by rewrite list_lookup_alter_eq, Hs. }
  assert (E2 : w2 = with_sockets (alter (push_frame (subscribe_frame chs)) ws)
      (with_subscribedChannels
         (insert id (add_channels (default [] (subscribedChannels w1 !! id)) chs)) w1))
    by (by eapply subscribe_open).
  assert (Hsub1 : subscribedChannels w1 !! id
            = Some (add_channels (default [] (subscribedChannels w !! id)) chs)).
  { rewrite E1. simpl. by rewrite lookup_insert_eq. }
  assert (Hsent1 : sent_on w1 ws = sent_on w ws ++ [subscribe_frame chs]).
  { rewrite E1. by eapply sent_on_push. }
  split_and!.
  - done.
  - intros c. rewrite Hsub1. simpl. apply elem_of_add_channels.
  - rewrite E2. simpl. rewrite Hsub1. simpl. rewrite add_channels_twice.
    by apply insert_id.
  - rewrite E2. erewrite sent_on_push by done. rewrite Hsent1.
    by rewrite <- app_assoc.
  - rewrite E2, E1. done.
  - rewrite E2, E1. simpl. by rewrite !length_alter.
Qed.

Lemma C3_subscribe_sends_requested_witness :
  let w := run all_return init [Connect 1; Open 0] in
  sent_on (subscribe 1 ["a"] (subscribe 1 ["a"] w)) 0
    = [subscribe_frame ["a"]; subscribe_frame ["a"]]
  ∧ subscribedChannels (subscribe 1 ["a"] (subscribe 1 ["a"] w)) !! 1%Z = Some ["a"].
Proof.
  pose (w := run all_return init [Connect 1; Open 0]).
  pose proof (C3_subscribe_sends_requested w 1 ["a"] 0%nat
    {| connectionId := 1; readyState := OPEN; sent := [] |}
    eq_refl eq_refl eq_refl) as H.
  cbv zeta in H. destruct H as (_ & _ & _ & H & _).
  split; [exact H | vm_compute; reflexivity].
Defined.

(** C3, as stated, fails: id 1 is connected and already subscribed to "a";
    a second [subscribe(1, ["a"])] adds nothing to the set, yet a second
    frame naming "a" is sent. *)
Lemma C3_counterexample :
  let w := run all_return init [Connect 1; Open 0; Subscribe 1 ["a"]] in
  subscribedChannels w !! 1%Z = Some ["a"]
  ∧ spec_delta ["a"] ["a"] = []
  ∧ sent_on (subscribe 1 ["a"] w) 0 = [subscribe_frame ["a"]; subscribe_frame ["a"]]
  ∧ ¬ subscribe_sends_delta w 1 ["a"].
Proof.
  split_and!; [vm_compute; reflexivity..|].
  intros H.
  specialize (H 0%nat {| connectionId := 1; readyState := OPEN;
                         sent := [subscribe_frame ["a"]] |} eq_refl eq_refl eq_refl).
  vm_compute in H. discriminate H.
Qed.

(** ** Dispatch of an inbound frame *)

Lemma calls_to_app (h : handler) (c1 c2 : list (handler * JSValue)) :
  calls_to h (c1 ++ c2) = (calls_to h c1 + calls_to h c2)%nat.
Proof. unfold calls_to. by rewrite filter_app, length_app. Qed.

Lemma calls_to_calls_for (h : handler) (m : JSValue) (hs : list handler) :
  calls_to h (calls_for m hs) = occurrences h hs.
Proof.
  unfold calls_to, calls_for, occurrences.
  induction hs as [|a hs IH]; [done|]. simpl.
  rewrite (filter_cons _ (a, m)), (filter_cons _ a). simpl.
  destruct (decide (a = h)); simpl; by rewrite IH.
Qed.

Lemma occurrences_0 (h : handler) (hs : list handler) :
  h ∉ hs → occurrences h hs = 0%nat.
Proof.
  unfold occurrences. induction hs as [|a hs IH]; [done|].
  rewrite not_elem_of_cons. intros [Hne Hnin].
  rewrite filter_cons, decide_False by done. by apply IH.
Qed.

Lemma occurrences_pos (h : handler) (hs : list handler) :
  h ∈ hs → (0 < occurrences h hs)%nat.
Proof.
  unfold occurrences. induction hs as [|a hs IH]; [by rewrite elem_of_nil|].
  rewrite elem_of_cons, filter_cons.
  destruct (decide (a = h)) as [->|Hne]; simpl; [lia|].
  intros [->|Hin]; [done|by apply IH].
Qed.

Lemma occurrences_NoDup (h : handler) (hs : list handler) :
  NoDup hs → h ∈ hs → occurrences h hs = 1%nat.
Proof.
  unfold occurrences. induction 1 as [|a hs Hnin Hnd IH]; [by rewrite elem_of_nil|].
  rewrite elem_of_cons, filter_cons.
  destruct (decide (a = h)) as [->|Hne]; simpl.
  - intros _. pose proof (occurrences_0 h hs Hnin) as E.
    unfold occurrences in E. by rewrite E.
  - intros [->|Hin]; [done|by apply IH].
Qed.

Lemma forEach_handler_return throws (hs : list handler) (m : JSValue) :
  (∀ h, h ∈ hs → throws h m = false) →
  forEach_handler throws hs m = (calls_for m hs, None).
Proof.
  induction hs as [|h hs IH]; intros Hret; [done|]. simpl.
  rewrite (Hret h) by left. rewrite IH; [done|].
  intros h' Hh'. apply Hret. by right.
Qed.

Lemma call_handlers_return throws (hm : gmap string (list handler))
    (k : string) (m : JSValue) :
  (∀ h, h ∈ default [] (hm !! k) → throws h m = false) →
  call_handlers throws hm (Some k) m = (calls_for m (default [] (hm !! k)), None).
Proof.
  intros Hret. unfold call_handlers. simpl.
  destruct (hm !! k) as [hs|]; [|done]. by apply forEach_handler_return.
Qed.

(** The [try] block on a frame that parses to a message with a string
    discriminant, when the callbacks concerned return. *)
Lemma onmessage_try_return throws (w : World) (id : Z) (d : Payload)
    (m : JSValue) (t : string) :
  JSON_parse d = inr m →
  message_type m = inr (Some t) →
  (∀ h, h ∈ handlers_of w id t ∨ h ∈ handlers_of w id "all" → throws h m = false) →
  onmessage_try throws id d w
    = (calls_for m (handlers_of w id t) ++ calls_for m (handlers_of w id "all"), None).
Proof.
  intros Hp Ht Hret. unfold onmessage_try. rewrite Hp.
  unfold handlers_of, registry in *.
  destruct (messageHandlers w !! id ≫= λ r, handlerMaps w !! r) as [hm|]; [|done].
  simpl in *. rewrite Ht.
  rewrite !call_handlers_return; [done|..]; intros h Hh; apply Hret; tauto.
Qed.

Lemma ev_message_return throws (w : World) (ws : nat) (s : WebSocket) (d : Payload)
    (m : JSValue) (t : string) :
  sockets w !! ws = Some s →
  readyState s = OPEN →
  JSON_parse d = inr m →
  message_type m = inr (Some t) →
  (∀ h, h ∈ handlers_of w (connectionId s) t ∨ h ∈ handlers_of w (connectionId s) "all" →
        throws h m = false) →
  ev_message throws ws d w
    = with_invoked
        (λ l, l ++ calls_for m (handlers_of w (connectionId s) t)
                ++ calls_for m (handlers_of w (connectionId s) "all")) w.
Proof.
  intros Hs Ho Hp Ht Hret. unfold ev_message. rewrite Hs, Ho.
  unfold onmessage. by erewrite onmessage_try_return.
Qed.

(** Whatever the callbacks do, the calls made are an initial part of the
    calls made when they all return. *)
Lemma forEach_handler_prefix throws (hs : list handler) (m : JSValue) :
  (forEach_handler throws hs m).1 `prefix_of` calls_for m hs
  ∧ ((forEach_handler throws hs m).2 = None →
     (forEach_handler throws hs m).1 = calls_for m hs).
Proof.
  induction hs as [|h hs [IH1 IH2]]; simpl; [done|].
  destruct (throws h m); simpl.
  - split; [|done]. by apply prefix_cons, prefix_nil.
  - destruct (forEach_handler throws hs m) as [calls e]. simpl in *.
    split; [by apply prefix_cons|]. intros He. by rewrite IH2.
Qed.

Lemma call_handlers_prefix throws (hm : gmap string (list handler))
    (k : string) (m : JSValue) :
  (call_handlers throws hm (Some k) m).1 `prefix_of` calls_for m (default [] (hm !! k))
  ∧ ((call_handlers throws hm (Some k) m).2 = None →
     (call_handlers throws hm (Some k) m).1 = calls_for m (default [] (hm !! k))).
Proof.
  unfold call_handlers. simpl. destruct (hm !! k) as [hs|]; simpl; [|done].
  apply forEach_handler_prefix.
Qed.

Lemma onmessage_try_prefix throws (w : World) (id : Z) (d : Payload)
    (m : JSValue) (t : string) :
  JSON_parse d = inr m →
  message_type m = inr (Some t) →
  (onmessage_try throws id d w).1
    `prefix_of` calls_for m (handlers_of w id t) ++ calls_for m (handlers_of w id "all").
Proof.
  intros Hp Ht. unfold onmessage_try. rewrite Hp.
  unfold handlers_of, registry.
  destruct (messageHandlers w !! id ≫= λ r, handlerMaps w !! r) as [hm|];
    simpl; [|apply prefix_nil].
  rewrite Ht.
  destruct (call_handlers_prefix throws hm t m) as [P1 F1].
  destruct (call_handlers_prefix throws hm "all" m) as [P2 _].
  destruct (call_handlers throws hm (Some t) m) as [calls [e|]]; simpl in *.
  - by apply prefix_app_r.
  - rewrite <- (F1 eq_refl).
    destruct (call_handlers throws hm (Some "all") m) as [calls' e']. simpl in *.
    by apply prefix_app.
Qed.

Lemma ev_message_invoked throws (w : World) (ws : nat) (s : WebSocket) (d : Payload) :
  sockets w !! ws = Some s →
  readyState s = OPEN →
  invoked (ev_message throws ws d w)
    = invoked w ++ (onmessage_try throws (connectionId s) d w).1.
Proof.
  intros Hs Ho. unfold ev_message. rewrite Hs, Ho. unfold onmessage.
  by destruct (onmessage_try throws (connectionId s) d w) as [calls [e|]].
Qed.

(** Dispatch by type.  An inbound frame on the open socket of [id] that
    parses to a message with discriminant [t] calls every handler
    registered for [t], in order, then every handler registered under
    "all", and changes nothing else, when the callbacks concerned return; a
    handler registered for [t] and a handler registered under "all" are
    both among these calls, whatever [t] is.  A callback that throws ends
    the dispatch (the [try] block encloses the calls): in every case the
    calls made are an initial part of that list, and a handler that is
    registered under neither key (for instance one registered for another
    type only) is not called. *)
Lemma dispatch_by_type throws (w : World) (ws : nat) (s : WebSocket)
    (d : Payload) (m : JSValue) (t : string) :
  sockets w !! ws = Some s →
  readyState s = OPEN →
  JSON_parse d = inr m →
  message_type m = inr (Some t) →
  let id := connectionId s in
  let full := calls_for m (handlers_of w id t) ++ calls_for m (handlers_of w id "all") in
  ((∀ h, h ∈ handlers_of w id t ∨ h ∈ handlers_of w id "all" → throws h m = false) →
   ev_message throws ws d w = with_invoked (λ l, l ++ full) w)
  ∧ (∀ h, h ∈ handlers_of w id t → (0 < calls_to h full)%nat)
  ∧ (∀ h, h ∈ handlers_of w id "all" → (0 < calls_to h full)%nat)
  ∧ (∃ calls, invoked (ev_message throws ws d w) = invoked w ++ calls
              ∧ calls `prefix_of` full
              ∧ ∀ h, h ∉ handlers_of w id t → h ∉ handlers_of w id "all" →
                     calls_to h calls = 0%nat).
Proof.
  intros Hs Ho Hp Ht id full. split_and!.
  - intros Hret. by eapply ev_message_return.
  - intros h Hh. unfold full. rewrite calls_to_app, !calls_to_calls_for.
    pose proof (occurrences_pos h _ Hh). lia.
  - intros h Hh. unfold full. rewrite calls_to_app, !calls_to_calls_for.
    pose proof (occurrences_pos h _ Hh). lia.
  - exists (onmessage_try throws id d w).1.
    pose proof (onmessage_try_prefix throws w id d m t Hp Ht) as Hpre.
    split_and!; [by apply ev_message_invoked|done|].
    intros h H1 H2. destruct Hpre as [k Hk].
    assert (Hfull : calls_to h full = 0%nat).
    { unfold full. rewrite calls_to_app, !calls_to_calls_for.
      by rewrite !occurrences_0. }
    fold id full in Hk. rewrite Hk, calls_to_app in Hfull. lia.
Qed.

(** C7.  A frame that is not JSON makes [JSON.parse] throw inside the [try]
    block; the [catch] clause logs it.  The state after the event is the
    state before it with one more console line: no callback runs, the
    socket stays open and registered, and the next frame is dispatched as
    if the malformed one had never arrived. *)
Theorem C7_malformed_frame_dropped throws (w : World) (ws : nat) (s : WebSocket)
    (raw : string) :
  sockets w !! ws = Some s →
  readyState s = OPEN →
  let w' := ev_message throws ws (NotJSON raw) w in
  onmessage_try throws (connectionId s) (NotJSON raw) w = ([], Some SyntaxError)
  ∧ w' = with_console (λ l, l ++ [FailedToParse SyntaxError]) w
  ∧ isConnected (connectionId s) w' = isConnected (connectionId s) w
  ∧ (∀ d, onmessage_try throws (connectionId s) d w'
          = onmessage_try throws (connectionId s) d w)
  ∧ (∀ d, invoked (ev_message throws ws d w') = invoked (ev_message throws ws d w)).
Proof.
  intros Hs Ho w'.
  assert (E : w' = with_console (λ l, l ++ [FailedToParse SyntaxError]) w).
  { unfold w', ev_message. rewrite Hs, Ho. unfold onmessage. simpl.
    unfold with_invoked, with_console. simpl. by rewrite app_nil_r. }
  split_and!; [done|done|by rewrite E|by rewrite E|].
  intros d'. rewrite E. unfold ev_message. simpl. rewrite Hs, Ho.
  unfold onmessage.
  replace (onmessage_try throws (connectionId s) d'
             (with_console (λ l, l ++ [FailedToParse SyntaxError]) w))
    with (onmessage_try throws (connectionId s) d' w) by done.
  destruct (onmessage_try throws (connectionId s) d' w) as [calls [e|]]; done.
Qed.

(** ** Invariants of the reachable states *)

Ltac unfold_ops :=
  unfold step, ev_timer, ev_close, ev_error, ev_message, ev_open, cleanup,
    onMessage, unsubscribe, subscribe, disconnect, onclose, onerror, onmessage,
    onopen, connect, new_WebSocket, setTimeout, clearTimeout, ws_send, ws_close,
    autoReconnect.

Ltac frame :=
  intros; unfold_ops; simpl in *; try done;
  repeat (case_match; simpl in *; try done).

(** *** Which operation touches which field *)

Lemma ws_close_cases (r : nat) (w : World) :
  ws_close r w = w ∨ ws_close r w = with_sockets (alter (set_readyState CLOSING) r) w.
Proof. unfold ws_close. repeat case_match; auto. Qed.

Lemma ws_send_cases (r : nat) (f : Frame) (w : World) :
  ws_send r f w = w
  ∨ ∃ s, sockets w !! r = Some s ∧ readyState s = OPEN
         ∧ ws_send r f w = with_sockets (alter (push_frame f) r) w.
Proof. unfold ws_send. repeat case_match; eauto. Qed.

Lemma connect_handlerMaps id w : handlerMaps (connect id w) = handlerMaps w.
Proof. frame. Qed.
Lemma connect_messageHandlers id w : messageHandlers (connect id w) = messageHandlers w.
Proof. frame. Qed.
Lemma connect_subscribedChannels id w :
  subscribedChannels (connect id w) = subscribedChannels w.
Proof. frame. Qed.
Lemma connect_invoked id w : invoked (connect id w) = invoked w.
Proof. frame. Qed.
Lemma connect_nextTimer id w : nextTimer (connect id w) = nextTimer w.
Proof. frame. Qed.

Lemma onMessage_subscribedChannels id t h w :
  subscribedChannels (onMessage id t h w).1 = subscribedChannels w.
Proof. unfold onMessage. by destruct (messageHandlers w !! id). Qed.

Lemma onMessage_fields id t h w :
  connections (onMessage id t h w).1 = connections w
  ∧ reconnectTimeouts (onMessage id t h w).1 = reconnectTimeouts w
  ∧ sockets (onMessage id t h w).1 = sockets w
  ∧ pendingTimers (onMessage id t h w).1 = pendingTimers w
  ∧ nextTimer (onMessage id t h w).1 = nextTimer w
  ∧ invoked (onMessage id t h w).1 = invoked w.
Proof. unfold onMessage. by destruct (messageHandlers w !! id). Qed.

Lemma lifecycle_handlerMaps throws w i :
  match i with OnMessage _ _ _ | Cleanup _ => False | _ => True end →
  handlerMaps (step throws w i) = handlerMaps w.
Proof. destruct i; frame. Qed.

Lemma lifecycle_messageHandlers throws w i :
  match i with OnMessage _ _ _ | Disconnect _ => False | _ => True end →
  messageHandlers (step throws w i) = messageHandlers w.
Proof. destruct i; frame. Qed.

Lemma lifecycle_subscribedChannels throws w i :
  match i with Subscribe _ _ | Unsubscribe _ _ | Disconnect _ => False | _ => True end →
  subscribedChannels (step throws w i) = subscribedChannels w.
Proof.
  destruct i; try (frame; fail). intros _. apply onMessage_subscribedChannels.
Qed.

(** *** Preservation by the elementary updates *)

Lemma Inv_init : Inv init.
Proof.
  split; simpl.
  - constructor.
  - intros id r Hr. by rewrite lookup_empty in Hr.
  - split; intros *; by rewrite lookup_empty.
  - intros r hm t l Hr. by rewrite lookup_nil in Hr.
  - intros id r Hr. by rewrite lookup_empty in Hr.
Qed.

Lemma conn_ok_alter c l (f : WebSocket → WebSocket) r :
  (∀ s, connectionId (f s) = connectionId s) →
  conn_ok c l → conn_ok c (alter f r l).
Proof.
  intros Hf Hc id r' Hr'. destruct (Hc id r' Hr') as (s & Hs & Hid).
  destruct (decide (r = r')) as [->|Hne].
  - exists (f s). by rewrite list_lookup_alter_eq, Hs, Hf.
  - exists s. by rewrite list_lookup_alter_ne.
Qed.

Lemma conn_ok_delete c l id : conn_ok c l → conn_ok (delete id c) l.
Proof.
  intros Hc id' r Hr. apply lookup_delete_Some in Hr as [_ Hr]. by apply Hc.
Qed.

Lemma conn_ok_insert c l id r s :
  l !! r = Some s → connectionId s = id → conn_ok c l → conn_ok (<[id := r]> c) l.
Proof.
  intros Hs Hid Hc id' r' Hr'. apply lookup_insert_Some in Hr' as [[<- <-]|[_ Hr']].
  - eauto.
  - by apply Hc.
Qed.

Lemma conn_ok_app c l l' : conn_ok c l → conn_ok c (l ++ l').
Proof.
  intros Hc id r Hr. destruct (Hc id r Hr) as (s & Hs & Hid).
  exists s. split; [|done]. by apply lookup_app_l_Some.
Qed.

Lemma timer_ok_delete rt n id : timer_ok rt n → timer_ok (delete id rt) n.
Proof.
  intros [H1 H2]. split.
  - intros id' t Ht. apply lookup_delete_Some in Ht as [_ Ht]. eauto.
  - intros id1 id2 t Ht1 Ht2.
    apply lookup_delete_Some in Ht1 as [_ Ht1].
    apply lookup_delete_Some in Ht2 as [_ Ht2]. eauto.
Qed.

Lemma timer_ok_insert rt n id : timer_ok rt n → timer_ok (<[id := n]> rt) (S n).
Proof.
  intros [H1 H2]. split.
  - intros id' t Ht. apply lookup_insert_Some in Ht as [[_ <-]|[_ Ht]]; [lia|].
    apply H1 in Ht. lia.
  - intros id1 id2 t Ht1 Ht2.
    apply lookup_insert_Some in Ht1 as [[<- <-]|[Hn1 Ht1]];
      apply lookup_insert_Some in Ht2 as [[<- Ht2]|[Hn2 Ht2]]; try done.
    + apply H1 in Ht2. lia.
    + apply H1 in Ht1. lia.
    + eauto.
Qed.

Lemma Inv_set_readyState st ws w :
  st ≠ CONNECTING → Inv w → Inv (with_sockets (alter (set_readyState st) ws) w).
Proof.
  intros Hst [H1 H2 H3 H4 H5]. split; simpl; try done.
  - apply Forall_alter; [done|]. intros s _ _ Hc. done.
  - by apply conn_ok_alter.
Qed.

Lemma Inv_ws_close r w : Inv w → Inv (ws_close r w).
Proof.
  intros HI. destruct (ws_close_cases r w) as [->| ->]; [done|].
  by apply Inv_set_readyState.
Qed.

Lemma Inv_ws_send r f w : Inv w → Inv (ws_send r f w).
Proof.
  intros HI. destruct (ws_send_cases r f w) as [->|(s & Hs & Ho & ->)]; [done|].
  destruct HI as [H1 H2 H3 H4 H5]. split; simpl; try done.
  - apply Forall_alter; [done|]. intros s' Hs' _ Hc.
    rewrite Hs in Hs'. injection Hs' as <-. simpl in Hc. congruence.
  - by apply conn_ok_alter.
Qed.

Lemma Inv_timers_delete t w : Inv w → Inv (with_timers (delete t) (nextTimer w) w).
Proof. by intros [H1 H2 H3 H4 H5]. Qed.

Lemma Inv_clearTimeout t w : Inv w → Inv (clearTimeout t w).
Proof. apply Inv_timers_delete. Qed.

Lemma Inv_reconnectTimeouts_delete id w :
  Inv w → Inv (with_reconnectTimeouts (delete id) w).
Proof.
  intros [H1 H2 H3 H4 H5]. split; simpl; try done. by apply timer_ok_delete.
Qed.

Lemma Inv_connections_delete id w : Inv w → Inv (with_connections (delete id) w).
Proof.
  intros [H1 H2 H3 H4 H5]. split; simpl; try done. by apply conn_ok_delete.
Qed.

Lemma Inv_connections_insert id ws s w :
  sockets w !! ws = Some s → connectionId s = id →
  Inv w → Inv (with_connections (insert id ws) w).
Proof.
  intros Hs Hid [H1 H2 H3 H4 H5]. split; simpl; try done.
  by eapply conn_ok_insert.
Qed.

Lemma Inv_new_WebSocket id w :
  Inv w → Inv (with_connections (insert id (new_WebSocket id w).1) (new_WebSocket id w).2).
Proof.
  intros [H1 H2 H3 H4 H5]. split; simpl; try done.
  - apply Forall_app. split; [done|]. apply Forall_singleton. by intros _.
  - eapply (conn_ok_insert _ _ _ _
              {| connectionId := id; readyState := CONNECTING; sent := [] |});
      [|done|by apply conn_ok_app].
    rewrite lookup_app_r by done. by rewrite Nat.sub_diag.
Qed.

Lemma Inv_subscribedChannels g w : Inv w → Inv (with_subscribedChannels g w).
Proof. by intros [H1 H2 H3 H4 H5]. Qed.

Lemma Inv_invoked g w : Inv w → Inv (with_invoked g w).
Proof. by intros [H1 H2 H3 H4 H5]. Qed.

Lemma Inv_console g w : Inv w → Inv (with_console g w).
Proof. by intros [H1 H2 H3 H4 H5]. Qed.

Lemma Inv_messageHandlers_delete id w :
  Inv w → Inv (with_messageHandlers (delete id) w).
Proof.
  intros [H1 H2 H3 H4 H5]. split; simpl; try done.
  intros id' r Hr. apply lookup_delete_Some in Hr as [_ Hr]. by eapply H5.
Qed.

(** *** Preservation by the operations *)

Lemma Inv_connect id w : Inv w → Inv (connect id w).
Proof.
  intros HI. unfold connect.
  destruct (readyState_of w (connections w !! id)) as [[]|]; try done;
    match goal with
    | |- context [match reconnectTimeouts ?w1 !! id with _ => _ end] =>
        assert (Inv w1) by (destruct (connections w !! id); auto using Inv_ws_close);
        destruct (reconnectTimeouts w1 !! id)
    end;
    match goal with
    | |- Inv (let '(_, _) := new_WebSocket id ?w2 in _) =>
        apply (Inv_new_WebSocket id w2)
    end;
    auto using Inv_reconnectTimeouts_delete, Inv_clearTimeout.
Qed.

Lemma Inv_setTimeout id w :
  Inv w → Inv (with_reconnectTimeouts (insert id (setTimeout id w).1) (setTimeout id w).2).
Proof.
  intros [H1 H2 H3 H4 H5]. split; simpl; try done. by apply timer_ok_insert.
Qed.

Lemma Inv_onopen ws s w :
  sockets w !! ws = Some s → Inv w → Inv (onopen ws (connectionId s) w).
Proof.
  intros Hs HI. unfold onopen.
  assert (Inv (with_connections (insert (connectionId s) ws) w))
    by (by eapply Inv_connections_insert).
  repeat case_match; auto using Inv_ws_send.
Qed.

Lemma Inv_ev_open ws w : Inv w → Inv (ev_open ws w).
Proof.
  intros HI. unfold ev_open.
  destruct (sockets w !! ws) as [s|] eqn:Hs; [|done].
  destruct (readyState s); try done.
  change (connectionId s) with (connectionId (set_readyState OPEN s)).
  apply Inv_onopen; [|by apply Inv_set_readyState].
  simpl. by rewrite list_lookup_alter_eq, Hs.
Qed.

Lemma Inv_onclose id w : Inv w → Inv (onclose id w).
Proof.
  intros HI. unfold onclose. simpl.
  apply (Inv_setTimeout id (with_connections (delete id) w)).
  by apply Inv_connections_delete.
Qed.

Lemma Inv_ev_close ws w : Inv w → Inv (ev_close ws w).
Proof.
  intros HI. unfold ev_close.
  destruct (sockets w !! ws) as [s|]; [|done].
  destruct (readyState s); try done;
    by apply Inv_onclose, Inv_set_readyState.
Qed.

Lemma Inv_ev_message throws ws d w : Inv w → Inv (ev_message throws ws d w).
Proof.
  intros HI. unfold ev_message, onmessage.
  repeat case_match; auto using Inv_invoked, Inv_console.
Qed.

Lemma Inv_ev_error ws w : Inv w → Inv (ev_error ws w).
Proof.
  intros HI. unfold ev_error, onerror. repeat case_match; auto using Inv_console.
Qed.

Lemma Inv_ev_timer t w : Inv w → Inv (ev_timer t w).
Proof.
  intros HI. unfold ev_timer. case_match; [|done].
  by apply Inv_connect, Inv_timers_delete.
Qed.

Lemma Inv_disconnect id w : Inv w → Inv (disconnect id w).
Proof.
  intros HI. unfold disconnect.
  apply Inv_subscribedChannels, Inv_messageHandlers_delete.
  match goal with
  | |- context [match connections ?w1 !! id with _ => _ end] =>
      assert (Inv w1) by
        (case_match; auto using Inv_reconnectTimeouts_delete, Inv_clearTimeout);
      destruct (connections w1 !! id)
  end; auto using Inv_connections_delete, Inv_ws_close.
Qed.

Lemma Inv_subscribe id chs w : Inv w → Inv (subscribe id chs w).
Proof.
  intros HI. unfold subscribe.
  match goal with
  | |- context [connect id ?w2] =>
      assert (Inv w2) by
        (apply Inv_subscribedChannels; case_match; auto using Inv_subscribedChannels)
  end.
  repeat case_match; auto using Inv_ws_send, Inv_connect.
Qed.

Lemma Inv_unsubscribe id chs w : Inv w → Inv (unsubscribe id chs w).
Proof.
  intros HI. unfold unsubscribe.
  match goal with
  | |- context [readyState_of ?w1 _] =>
      assert (Inv w1) by (by apply Inv_subscribedChannels)
  end.
  repeat case_match; auto using Inv_ws_send.
Qed.

Lemma lookup_add_handler type h (hm : gmap string (list handler)) k :
  add_handler type h hm !! k
    = if decide (k = type) then Some (Set_add h (default [] (hm !! type))) else hm !! k.
Proof.
  unfold add_handler. destruct (decide (k = type)) as [->|Hne].
  - rewrite lookup_alter_eq. destruct (hm !! type) as [l|] eqn:Hl.
    + by rewrite Hl.
    + by rewrite lookup_insert_eq.
  - rewrite lookup_alter_ne by done. destruct (hm !! type); [done|].
    by rewrite lookup_insert_ne.
Qed.

Lemma lookup_delete_handler t h (hm : gmap string (list handler)) k :
  alter (Set_delete h) t hm !! k
    = if decide (k = t) then Set_delete h <$> hm !! t else hm !! k.
Proof.
  destruct (decide (k = t)) as [->|Hne].
  - by rewrite lookup_alter_eq.
  - by rewrite lookup_alter_ne.
Qed.

Lemma sets_ok_alter hms r (f : gmap string (list handler) → gmap string (list handler)) :
  (∀ hm, (∀ t l, hm !! t = Some l → NoDup l) → ∀ t l, f hm !! t = Some l → NoDup l) →
  sets_ok hms → sets_ok (alter f r hms).
Proof.
  intros Hf Hok r' hm' t l Hr' Ht.
  destruct (decide (r = r')) as [->|Hne].
  - rewrite list_lookup_alter_eq in Hr'.
    destruct (hms !! r') as [hm|] eqn:Hhm; [|done].
    injection Hr' as <-. eapply Hf; [|done]. intros t' l' Hl'. by eapply Hok.
  - rewrite list_lookup_alter_ne in Hr' by done. by eapply Hok.
Qed.

Lemma sets_ok_new hms : sets_ok hms → sets_ok (hms ++ [∅]).
Proof.
  intros Hok r hm t l Hr Ht.
  apply lookup_app_Some in Hr as [Hr|[_ Hr]]; [by eapply Hok|].
  apply list_lookup_singleton_Some in Hr as [_ <-]. by rewrite lookup_empty in Ht.
Qed.

Lemma add_handler_NoDup type h (hm : gmap string (list handler)) :
  (∀ t l, hm !! t = Some l → NoDup l) →
  ∀ t l, add_handler type h hm !! t = Some l → NoDup l.
Proof.
  intros Hok t l. rewrite lookup_add_handler. case_decide as Ht.
  - intros [= <-]. apply NoDup_Set_add.
    destruct (hm !! type) as [l'|] eqn:Hl; [by eapply Hok|constructor].
  - apply Hok.
Qed.

Lemma delete_handler_NoDup t0 h (hm : gmap string (list handler)) :
  (∀ t l, hm !! t = Some l → NoDup l) →
  ∀ t l, alter (Set_delete h) t0 hm !! t = Some l → NoDup l.
Proof.
  intros Hok t l. rewrite lookup_delete_handler. case_decide as Ht.
  - destruct (hm !! t0) as [l'|] eqn:Hl; [|done].
    intros [= <-]. apply NoDup_Set_delete. by eapply Hok.
  - apply Hok.
Qed.

Lemma Inv_onMessage id t h w : Inv w → Inv (onMessage id t h w).1.
Proof.
  intros [H1 H2 H3 H4 H5]. unfold onMessage.
  destruct (messageHandlers w !! id) as [r|] eqn:Hr; split; simpl; try done.
  - apply sets_ok_alter; [apply add_handler_NoDup|done].
  - intros id' r' Hr'. rewrite length_alter. by eapply H5.
  - apply sets_ok_alter; [apply add_handler_NoDup|by apply sets_ok_new].
  - intros id' r' Hr'. rewrite length_alter, length_app. simpl.
    apply lookup_insert_Some in Hr' as [[_ <-]|[_ Hr']]; [lia|].
    apply H5 in Hr'. lia.
Qed.

Lemma Inv_cleanup tok w : Inv w → Inv (cleanup tok w).
Proof.
  intros [H1 H2 H3 H4 H5]. unfold cleanup. split; simpl; try done.
  - apply sets_ok_alter; [apply delete_handler_NoDup|done].
  - intros id' r' Hr'. rewrite length_alter. by eapply H5.
Qed.

Lemma Inv_step throws w i : Inv w → Inv (step throws w i).
Proof.
  destruct i; simpl;
    auto using Inv_connect, Inv_disconnect, Inv_subscribe, Inv_unsubscribe,
      Inv_onMessage, Inv_cleanup, Inv_ev_open, Inv_ev_message, Inv_ev_error,
      Inv_ev_close, Inv_ev_timer.
Qed.

Lemma Inv_run throws l w : Inv w → Inv (run throws w l).
Proof.
  revert w. induction l as [|i l IH]; intros w HI; [done|].
  simpl. by apply IH, Inv_step.
Qed.

Lemma reachable_Inv throws w : reachable throws w → Inv w.
Proof. intros [l ->]. apply Inv_run, Inv_init. Qed.

Lemma reachable_step throws w i :
  reachable throws w → reachable throws (step throws w i).
Proof.
  intros [l ->]. exists (l ++ [i]). unfold run. by rewrite foldl_app.
Qed.

(** ** Opening a transport *)

Lemma ev_open_resubscribe (w : World) (ws : nat) (s : WebSocket) (chs : list string) :
  sockets w !! ws = Some s →
  readyState s = CONNECTING →
  subscribedChannels w !! connectionId s = Some chs →
  chs ≠ [] →
  ev_open ws w
    = with_sockets (alter (push_frame (subscribe_frame chs)) ws)
        (with_connections (insert (connectionId s) ws)
           (with_sockets (alter (set_readyState OPEN) ws) w)).
Proof.
  intros Hs Hc Hsub Hne. unfold ev_open. rewrite Hs, Hc.
  unfold onopen. simpl. rewrite Hsub.
  destruct chs as [|c cs]; [done|].
  unfold ws_send. simpl. rewrite list_lookup_alter_eq, Hs. done.
Qed.

Lemma ev_open_silent (w : World) (ws : nat) (s : WebSocket) :
  sockets w !! ws = Some s →
  readyState s = CONNECTING →
  subscribedChannels w !! connectionId s = None →
  ev_open ws w
    = with_connections (insert (connectionId s) ws)
        (with_sockets (alter (set_readyState OPEN) ws) w).
Proof.
  intros Hs Hc Hsub. unfold ev_open. rewrite Hs, Hc.
  unfold onopen. simpl. by rewrite Hsub.
Qed.

(** An unexpected close followed by the reconnect timer. *)
Lemma close_then_timer (w : World) (r : nat) (s : WebSocket) :
  sockets w !! r = Some s →
  readyState s ≠ CLOSED →
  let id := connectionId s in
  let w2 := ev_timer (nextTimer w) (ev_close r w) in
  sockets w2
    = alter (set_readyState CLOSED) r (sockets w)
      ++ [{| connectionId := id; readyState := CONNECTING; sent := [] |}]
  ∧ connections w2 !! id = Some (length (sockets w))
  ∧ reconnectTimeouts w2 !! id = None
  ∧ subscribedChannels w2 = subscribedChannels w
  ∧ messageHandlers w2 = messageHandlers w
  ∧ handlerMaps w2 = handlerMaps w.
Proof.
  intros Hs Hst id w2.
  assert (E1 : ev_close r w = onclose id (with_sockets (alter (set_readyState CLOSED) r) w)).
  { unfold ev_close. rewrite Hs. by destruct (readyState s). }
  unfold w2. rewrite E1. unfold onclose, ev_timer. simpl.
  rewrite lookup_insert_eq. unfold connect, readyState_of. simpl.
  rewrite lookup_delete_eq. simpl. rewrite lookup_insert_eq. simpl.
  rewrite lookup_insert_eq, length_alter. split_and!; try done.
  by rewrite lookup_delete_eq.
Qed.

(** C4.  While the subscription set of [id] is [chs], not empty: nothing has
    been sent on a socket of [id] that is still connecting, and its open
    event sends exactly one frame, the subscribe frame listing [chs]; after
    an unexpected close the reconnect timer creates a new socket, whose open
    event does the same; and no event of the connection life cycle (connect,
    open, message, error, close, timer) changes a subscription set. *)
Theorem C4_open_resubscribes throws (w : World) (id : Z) (chs : list string) :
  reachable throws w →
  subscribedChannels w !! id = Some chs →
  chs ≠ [] →
  (∀ ws s, sockets w !! ws = Some s → connectionId s = id →
           readyState s = CONNECTING →
     sent_on w ws = []
     ∧ sockets (ev_open ws w) !! ws
         = Some {| connectionId := id; readyState := OPEN;
                   sent := [subscribe_frame chs] |}
     ∧ subscribedChannels (ev_open ws w) = subscribedChannels w)
  ∧ (∀ r s, sockets w !! r = Some s → connectionId s = id →
            readyState s ≠ CLOSED →
       let ws := length (sockets w) in
       let w3 := run throws w [Close r; Timer (nextTimer w); Open ws] in
       sockets w3 !! ws
         = Some {| connectionId := id; readyState := OPEN;
                   sent := [subscribe_frame chs] |}
       ∧ subscribedChannels w3 = subscribedChannels w)
  ∧ (∀ i, lifecycle i → subscribedChannels (step throws w i) = subscribedChannels w).
Proof.
  intros Hreach Hsub Hne. split_and!.
  - intros ws s Hs Hid Hc. subst id.
    pose proof (inv_sent w (reachable_Inv _ _ Hreach)) as Hsent.
    rewrite Forall_lookup in Hsent. specialize (Hsent ws s Hs Hc).
    rewrite (ev_open_resubscribe w ws s chs) by done.
    split_and!.
    + unfold sent_on. by rewrite Hs.
    + simpl. rewrite !list_lookup_alter_eq, Hs. simpl.
      unfold push_frame. simpl. by rewrite Hsent.
    + done.
  - intros r s Hs Hid Hst ws w3. subst id.
    destruct (close_then_timer w r s Hs Hst) as (Hsock & Hconn & _ & Hsubs & _).
    simpl in *.
    set (w2 := ev_timer (nextTimer w) (ev_close r w)) in *.
    assert (Hnew : sockets w2 !! ws
              = Some {| connectionId := connectionId s; readyState := CONNECTING;
                        sent := [] |}).
    { rewrite Hsock, lookup_app_r by (by rewrite length_alter).
      unfold ws. by rewrite length_alter, Nat.sub_diag. }
    unfold w3. simpl. fold w2.
    rewrite (ev_open_resubscribe w2 ws _ chs Hnew) by (by rewrite ?Hsubs).
    simpl. by rewrite !list_lookup_alter_eq, Hnew.
  - intros i Hi. apply lifecycle_subscribedChannels. by destruct i.
Qed.

Lemma C4_open_resubscribes_witness :
  let w := run all_return init [Subscribe 1 ["x"; "y"]] in
  sockets (ev_open 0 w) !! 0%nat
    = Some {| connectionId := 1; readyState := OPEN;
              sent := [subscribe_frame ["x"; "y"]] |}.
Proof.
  pose (w := run all_return init [Subscribe 1 ["x"; "y"]]).
  assert (Hr : reachable all_return w) by (by exists [Subscribe 1 ["x"; "y"]]).
  assert (Hne : ["x"; "y"] ≠ @nil string) by done.
  destruct (C4_open_resubscribes all_return w 1 ["x"; "y"] Hr eq_refl Hne)
    as (H & _ & _).
  destruct (H 0%nat {| connectionId := 1; readyState := CONNECTING; sent := [] |}
              eq_refl eq_refl eq_refl) as (_ & H' & _).
  exact H'.
Defined.

(** ** Explicit disconnect *)

Lemma ws_close_only_sockets (r : nat) (w : World) :
  ws_close r w = with_sockets (λ _, sockets (ws_close r w)) w.
Proof.
  destruct (ws_close_cases r w) as [E|E]; rewrite E; by destruct w.
Qed.

Lemma ws_close_sockets_frame (r : nat) (w : World) g :
  sockets (ws_close r (with_reconnectTimeouts g w)) = sockets (ws_close r w)
  ∧ ∀ t, sockets (ws_close r (clearTimeout t w)) = sockets (ws_close r w).
Proof. split; intros; unfold ws_close; simpl; by repeat case_match. Qed.

Lemma disconnect_fields (id : Z) (w : World) :
  connections (disconnect id w) = delete id (connections w)
  ∧ reconnectTimeouts (disconnect id w) = delete id (reconnectTimeouts w)
  ∧ subscribedChannels (disconnect id w) = delete id (subscribedChannels w)
  ∧ messageHandlers (disconnect id w) = delete id (messageHandlers w)
  ∧ handlerMaps (disconnect id w) = handlerMaps w
  ∧ pendingTimers (disconnect id w)
      = match reconnectTimeouts w !! id with
        | Some t => delete t (pendingTimers w)
        | None => pendingTimers w
        end
  ∧ sockets (disconnect id w)
      = match connections w !! id with
        | Some ws => sockets (ws_close ws w)
        | None => sockets w
        end
  ∧ nextTimer (disconnect id w) = nextTimer w
  ∧ console (disconnect id w) = console w
  ∧ invoked (disconnect id w) = invoked w.
Proof.
  unfold disconnect.
  destruct (reconnectTimeouts w !! id) as [t|] eqn:Ht; simpl;
    destruct (connections w !! id) as [ws|] eqn:Hws; simpl;
    rewrite ?(delete_id _ _ Ht), ?(delete_id _ _ Hws); try done.
  - rewrite (ws_close_only_sockets ws). simpl.
    destruct (ws_close_sockets_frame ws (clearTimeout t w) (delete id)) as [-> _].
    destruct (ws_close_sockets_frame ws w (delete id)) as [_ ->]. done.
  - by rewrite (ws_close_only_sockets ws).
Qed.

Lemma ws_close_lookup_ne (ws r : nat) (w : World) :
  ws ≠ r → sockets (ws_close ws w) !! r = sockets w !! r.
Proof.
  intros Hne. destruct (ws_close_cases ws w) as [-> | ->]; [done|].
  simpl. by rewrite list_lookup_alter_ne.
Qed.

Lemma disconnect_other_id (w : World) (id id' : Z) :
  Inv w → id' ≠ id → id_state (disconnect id w) id' = id_state w id'.
Proof.
  intros HI Hne.
  destruct (disconnect_fields id w)
    as (Hc & Hrt & Hsub & Hmh & Hhm & Hpt & Hso & _).
  unfold id_state, registry. rewrite Hc, Hrt, Hsub, Hmh, Hhm, Hpt, Hso.
  rewrite !lookup_delete_ne by done.
  assert (E1 : connections w !! id' ≫= (λ r,
                 match connections w !! id with
                 | Some ws => sockets (ws_close ws w)
                 | None => sockets w
                 end !! r)
               = connections w !! id' ≫= (λ r, sockets w !! r)).
  { destruct (connections w !! id') as [r'|] eqn:Hr'; [simpl|done].
    destruct (connections w !! id) as [ws|] eqn:Hws; [|done].
    apply ws_close_lookup_ne. intros ->.
    destruct (inv_conn w HI _ _ Hr') as (s1 & Hs1 & Hid1).
    destruct (inv_conn w HI _ _ Hws) as (s2 & Hs2 & Hid2).
    congruence. }
  assert (E2 : reconnectTimeouts w !! id' ≫= (λ t,
                 match reconnectTimeouts w !! id with
                 | Some t0 => delete t0 (pendingTimers w)
                 | None => pendingTimers w
                 end !! t)
               = reconnectTimeouts w !! id' ≫= (λ t, pendingTimers w !! t)).
  { destruct (reconnectTimeouts w !! id') as [t'|] eqn:Ht'; [simpl|done].
    destruct (reconnectTimeouts w !! id) as [t|] eqn:Ht; [|done].
    apply lookup_delete_ne. intros ->.
    destruct (inv_timer w HI) as [_ Hinj]. by pose proof (Hinj _ _ _ Ht Ht'). }
  by rewrite E1, E2.
Qed.

Lemma disconnect_other_socket (w : World) (id : Z) (r : nat) (s : WebSocket) :
  Inv w → sockets w !! r = Some s → connectionId s ≠ id →
  sockets (disconnect id w) !! r = Some s.
Proof.
  intros HI Hs Hne.
  destruct (disconnect_fields id w) as (_ & _ & _ & _ & _ & _ & -> & _).
  destruct (connections w !! id) as [ws|] eqn:Hws; [|done].
  rewrite ws_close_lookup_ne; [done|]. intros ->.
  destruct (inv_conn w HI _ _ Hws) as (s2 & Hs2 & Hid2). congruence.
Qed.

(** After [disconnect(id)]: [connect(id)], the open event of the new socket
    and one inbound frame. *)
Lemma disconnect_then_connect throws (w : World) (id : Z) (d : Payload) :
  let ws := length (sockets w) in
  let w4 := run throws (disconnect id w) [Connect id; Open ws; Message ws d] in
  invoked w4 = invoked w
  ∧ sockets w4 !! ws = Some {| connectionId := id; readyState := OPEN; sent := [] |}.
Proof.
  intros ws w4. unfold w4. clear w4.
  destruct (disconnect_fields id w)
    as (Hc & Hrt & Hsub & Hmh & Hhm & Hpt & Hso & Hnt & Hco & Hin).
  generalize dependent (disconnect id w). intros w1 Hc Hrt Hsub Hmh Hhm Hpt Hso Hnt Hco Hin.
  assert (Hlen : length (sockets w1) = ws).
  { rewrite Hso. destruct (connections w !! id) as [r|]; [|done].
    destruct (ws_close_cases r w) as [-> | ->]; [done|]. simpl. apply length_alter. }
  set (new := {| connectionId := id; readyState := CONNECTING; sent := [] |}).
  assert (E2 : connect id w1
            = with_connections (insert id ws) (with_sockets (λ l, l ++ [new]) w1)).
  { unfold connect, readyState_of. rewrite Hc, lookup_delete_eq. simpl.
    rewrite Hrt, lookup_delete_eq. by rewrite Hlen. }
  simpl. generalize dependent (connect id w1). intros w2 E2.
  assert (Hnew : sockets w2 !! ws = Some new).
  { rewrite E2. simpl. rewrite lookup_app_r by lia. by rewrite Hlen, Nat.sub_diag. }
  assert (E3 : ev_open ws w2
            = with_connections (insert id ws)
                (with_sockets (alter (set_readyState OPEN) ws) w2)).
  { apply (ev_open_silent w2 ws new Hnew eq_refl). simpl.
    rewrite E2. simpl. by rewrite Hsub, lookup_delete_eq. }
  generalize dependent (ev_open ws w2). intros w3 E3.
  assert (Hopen : sockets w3 !! ws = Some (set_readyState OPEN new)).
  { rewrite E3. simpl. by rewrite list_lookup_alter_eq, Hnew. }
  assert (Hmh3 : messageHandlers w3 !! id = None).
  { rewrite E3, E2. simpl. by rewrite Hmh, lookup_delete_eq. }
  assert (Htry : ∃ e, onmessage_try throws id d w3 = ([], e)).
  { unfold onmessage_try. destruct (JSON_parse d); [by eexists|].
    rewrite Hmh3. by eexists. }
  destruct Htry as [e Htry].
  unfold ev_message. rewrite Hopen. simpl.
  unfold onmessage. rewrite Htry.
  assert (Hin3 : invoked w3 = invoked w) by (by rewrite E3, E2).
  destruct e; simpl; by rewrite ?app_nil_r, Hin3, Hopen.
Qed.

Lemma ws_send_fields (r : nat) (f : Frame) (w : World) :
  subscribedChannels (ws_send r f w) = subscribedChannels w
  ∧ messageHandlers (ws_send r f w) = messageHandlers w
  ∧ handlerMaps (ws_send r f w) = handlerMaps w
  ∧ connections (ws_send r f w) = connections w.
Proof. by destruct (ws_send_cases r f w) as [->|(s & _ & _ & ->)]. Qed.

Lemma subscribe_subscribedChannels (id : Z) (chs : list string) (w : World) :
  subscribedChannels (subscribe id chs w)
    = <[id := add_channels (default [] (subscribedChannels w !! id)) chs]>
        (subscribedChannels w).
Proof.
  unfold subscribe.
  match goal with
  | |- context [connect id ?w2] =>
      transitivity (subscribedChannels w2);
        [repeat case_match;
           first [apply connect_subscribedChannels | apply ws_send_fields]|]
  end.
  simpl. apply map_eq. intros i.
  destruct (subscribedChannels w !! id) as [cs|] eqn:Hcs; simpl;
    destruct (decide (i = id)) as [->|Hne];
    by rewrite ?lookup_alter_eq, ?lookup_alter_ne, ?lookup_insert_eq,
         ?lookup_insert_ne, ?Hcs by done.
Qed.

Lemma unsubscribe_fields (id : Z) (chs : list string) (w : World) :
  subscribedChannels (unsubscribe id chs w)
    = alter (λ channelSet, foldl (λ s ch, Set_delete ch s) channelSet chs) id
        (subscribedChannels w)
  ∧ messageHandlers (unsubscribe id chs w) = messageHandlers w.
Proof.
  unfold unsubscribe.
  split; repeat case_match; try done;
    match goal with
    | |- context [ws_send ?r ?f ?w1] =>
        destruct (ws_send_fields r f w1) as (E1 & E2 & _); by rewrite ?E1, ?E2
    end.
Qed.

Lemma subscribe_messageHandlers (id : Z) (chs : list string) (w : World) :
  messageHandlers (subscribe id chs w) = messageHandlers w.
Proof.
  unfold subscribe.
  match goal with
  | |- context [connect id ?w2] =>
      transitivity (messageHandlers w2);
        [repeat case_match;
           first [apply connect_messageHandlers | apply ws_send_fields]|]
  end.
  by case_match.
Qed.

(** Only [disconnect(id)] discards the subscription set or the registry of
    [id]. *)
Lemma step_keeps_intent throws (u : World) (i : Input) (id : Z) :
  i ≠ Disconnect id →
  (is_Some (subscribedChannels u !! id) →
   is_Some (subscribedChannels (step throws u i) !! id))
  ∧ (∀ r, messageHandlers u !! id = Some r →
          messageHandlers (step throws u i) !! id = Some r).
Proof.
  intros Hi.
  destruct i as [id'|id'|id' chs|id' chs|id' t h|tok| | | | | ];
    try (rewrite lifecycle_subscribedChannels, lifecycle_messageHandlers by done;
         done).
  - destruct (disconnect_fields id' u) as (_ & _ & Hsub & Hmh & _).
    cbn [step]. rewrite Hsub, Hmh.
    assert (id' ≠ id) by congruence.
    by rewrite !lookup_delete_ne.
  - cbn [step]. rewrite subscribe_subscribedChannels, subscribe_messageHandlers.
    split; [|done]. intros Hs. rewrite lookup_insert_is_Some.
    destruct (decide (id' = id)); auto.
  - cbn [step]. destruct (unsubscribe_fields id' chs u) as [-> ->].
    split; [|done]. by rewrite lookup_alter_is_Some.
  - cbn [step]. rewrite onMessage_subscribedChannels. split; [done|].
    intros r Hr. unfold onMessage.
    destruct (messageHandlers u !! id') as [r'|] eqn:Hr'; simpl; [done|].
    rewrite lookup_insert_ne; [done|congruence].
Qed.

(** C6.  [disconnect(id)] leaves [id] with no transport, no timer, no
    subscription set and no registry, and leaves what the manager holds for
    every other id, and every socket of another id, as they were.  After it,
    [connect(id)], the open event and an inbound frame call no handler and
    send nothing.  The events of the connection life cycle change neither
    the subscription sets nor the registries, and no operation but
    [disconnect(id)] discards the set or the registry of [id]. *)
Theorem C6_disconnect_clears_intent throws (w : World) (id : Z) :
  reachable throws w →
  let w1 := disconnect id w in
  id_state w1 id = (None, None, None, None, None, None)
  ∧ (∀ id', id' ≠ id → id_state w1 id' = id_state w id')
  ∧ (∀ r s, sockets w !! r = Some s → connectionId s ≠ id → sockets w1 !! r = Some s)
  ∧ (∀ d,
       let ws := length (sockets w) in
       let w4 := run throws w1 [Connect id; Open ws; Message ws d] in
       invoked w4 = invoked w
       ∧ sockets w4 !! ws
           = Some {| connectionId := id; readyState := OPEN; sent := [] |})
  ∧ (∀ u i, lifecycle i →
       subscribedChannels (step throws u i) = subscribedChannels u
       ∧ messageHandlers (step throws u i) = messageHandlers u
       ∧ handlerMaps (step throws u i) = handlerMaps u)
  ∧ (∀ u i id0, i ≠ Disconnect id0 →
       (is_Some (subscribedChannels u !! id0) →
        is_Some (subscribedChannels (step throws u i) !! id0))
       ∧ (∀ r, messageHandlers u !! id0 = Some r →
               messageHandlers (step throws u i) !! id0 = Some r)).
Proof.
  intros Hreach w1. pose proof (reachable_Inv _ _ Hreach) as HI.
  split_and!.
  - destruct (disconnect_fields id w) as (Hc & Hrt & Hsub & Hmh & _).
    unfold id_state, registry, w1. rewrite Hc, Hrt, Hsub, Hmh.
    by rewrite !lookup_delete_eq.
  - intros id' Hne. by apply disconnect_other_id.
  - intros r s Hs Hne. by apply disconnect_other_socket.
  - intros d. apply disconnect_then_connect.
  - intros u i Hi. split_and!.
    + apply lifecycle_subscribedChannels. by destruct i.
    + apply lifecycle_messageHandlers. by destruct i.
    + apply lifecycle_handlerMaps. by destruct i.
  - intros u i id0. apply step_keeps_intent.
Qed.

Lemma C6_disconnect_clears_intent_witness :
  let w := run all_return init [Connect 1; OnMessage 1 "t" 7; Subscribe 1 ["a"]] in
  id_state (disconnect 1 w) 1 = (None, None, None, None, None, None).
Proof.
  pose (w := run all_return init [Connect 1; OnMessage 1 "t" 7; Subscribe 1 ["a"]]).
  assert (Hr : reachable all_return w)
    by (by exists [Connect 1; OnMessage 1 "t" 7; Subscribe 1 ["a"]]).
  destruct (C6_disconnect_clears_intent all_return w 1 Hr) as (H & _).
  exact H.
Defined.

(** ** Registration and de-registration *)

Lemma onMessage_token (id : Z) (t : string) (h : handler) (w : World) :
  (onMessage id t h w).2
    = {| tok_handlers := default (length (handlerMaps w)) (messageHandlers w !! id);
         tok_type := t; tok_handler := h |}.
Proof. unfold onMessage. by destruct (messageHandlers w !! id). Qed.

Lemma onMessage_messageHandlers (id : Z) (t : string) (h : handler) (w : World) :
  messageHandlers (onMessage id t h w).1 !! id
    = Some (tok_handlers (onMessage id t h w).2).
Proof.
  unfold onMessage. destruct (messageHandlers w !! id) as [r|] eqn:Hr; simpl; [done|].
  by rewrite lookup_insert_eq.
Qed.

Lemma onMessage_registered (id : Z) (t : string) (h : handler) (w : World) (r : nat) :
  messageHandlers w !! id = Some r →
  onMessage id t h w
    = (with_handlerMaps (alter (add_handler t h) r) w,
       {| tok_handlers := r; tok_type := t; tok_handler := h |}).
Proof. intros Hr. unfold onMessage. by rewrite Hr. Qed.

Lemma add_handler_idemp (t : string) (h : handler) (hm : gmap string (list handler)) :
  add_handler t h (add_handler t h hm) = add_handler t h hm.
Proof.
  apply map_eq. intros k. rewrite !lookup_add_handler.
  destruct (decide (k = t)) as [->|Hne]; [|done].
  rewrite decide_True by done. simpl. f_equal.
  apply Set_add_elem, elem_of_Set_add. by left.
Qed.

Lemma with_handlerMaps_id (f : list (gmap string (list handler)) →
                               list (gmap string (list handler))) (w : World) :
  f (handlerMaps w) = handlerMaps w → with_handlerMaps f w = w.
Proof. intros E. unfold with_handlerMaps. rewrite E. by destruct w. Qed.

Lemma list_alter_idemp {A} (f : A → A) (r : nat) (l : list A) :
  (∀ x, f (f x) = f x) → alter f r (alter f r l) = alter f r l.
Proof.
  intros Hf. apply list_eq. intros i. destruct (decide (r = i)) as [->|Hne].
  - rewrite !list_lookup_alter_eq. destruct (l !! i); simpl; by rewrite ?Hf.
  - by rewrite !list_lookup_alter_ne.
Qed.

Lemma onMessage_fresh (id : Z) (t : string) (h : handler) (w : World) :
  messageHandlers w !! id = None →
  onMessage id t h w
    = (with_handlerMaps (alter (add_handler t h) (length (handlerMaps w)))
         (with_messageHandlers (insert id (length (handlerMaps w)))
            (with_handlerMaps (λ l, l ++ [∅]) w)),
       {| tok_handlers := length (handlerMaps w); tok_type := t; tok_handler := h |}).
Proof. intros Hr. unfold onMessage. by rewrite Hr. Qed.

(** Registering the same callback again for the same id and type changes
    nothing and returns an equal closure. *)
Lemma onMessage_twice (id : Z) (t : string) (h : handler) (w : World) :
  onMessage id t h (onMessage id t h w).1 = onMessage id t h w.
Proof.
  destruct (messageHandlers w !! id) as [r|] eqn:Hr.
  - rewrite (onMessage_registered id t h w r Hr). simpl.
    rewrite (onMessage_registered id t h _ r) by done. f_equal.
    apply with_handlerMaps_id. simpl. apply list_alter_idemp, add_handler_idemp.
  - rewrite (onMessage_fresh id t h w Hr). simpl.
    rewrite (onMessage_registered id t h _ (length (handlerMaps w)))
      by (simpl; apply lookup_insert_eq).
    f_equal. apply with_handlerMaps_id. simpl.
    apply list_alter_idemp, add_handler_idemp.
Qed.

Lemma handlers_of_onMessage (id : Z) (t : string) (h : handler) (w : World) (k : string) :
  reg_ok (messageHandlers w) (handlerMaps w) →
  handlers_of (onMessage id t h w).1 id k
    = if decide (k = t) then Set_add h (handlers_of w id t) else handlers_of w id k.
Proof.
  intros Hreg. unfold handlers_of, registry, onMessage.
  destruct (messageHandlers w !! id) as [r|] eqn:Hr; simpl.
  - rewrite Hr. simpl. rewrite list_lookup_alter_eq.
    destruct (lookup_lt_is_Some_2 _ _ (Hreg _ _ Hr)) as [hm Hhm].
    rewrite Hhm. simpl. rewrite lookup_add_handler. by case_decide.
  - rewrite lookup_insert_eq. simpl. rewrite list_lookup_alter_eq.
    rewrite lookup_app_r, Nat.sub_diag by done. simpl.
    rewrite lookup_add_handler, lookup_empty. by case_decide.
Qed.

Lemma handlers_of_cleanup (tok : Token) (w : World) (id : Z) (k : string) :
  messageHandlers w !! id = Some (tok_handlers tok) →
  handlers_of (cleanup tok w) id k
    = if decide (k = tok_type tok)
      then Set_delete (tok_handler tok) (handlers_of w id k)
      else handlers_of w id k.
Proof.
  intros Hr. unfold handlers_of, registry, cleanup. simpl. rewrite Hr. simpl.
  rewrite list_lookup_alter_eq.
  destruct (handlerMaps w !! tok_handlers tok) as [hm|]; simpl.
  - rewrite lookup_delete_handler. destruct (decide (k = tok_type tok)) as [->|]; [|done].
    by destruct (hm !! tok_type tok).
  - by case_decide.
Qed.

Lemma cleanup_idemp (tok : Token) (w : World) :
  cleanup tok (cleanup tok w) = cleanup tok w.
Proof.
  unfold cleanup at 1. apply with_handlerMaps_id. simpl.
  apply list_alter_idemp. intros hm. apply map_eq. intros k.
  rewrite !lookup_delete_handler. case_decide; [|done].
  rewrite decide_True by done.
  destruct (hm !! tok_type tok); simpl; [|done]. by rewrite Set_delete_idemp.
Qed.

Lemma occurrences_Set_delete (h h' : handler) (l : list handler) :
  occurrences h' (Set_delete h l)
    = if decide (h' = h) then 0%nat else occurrences h' l.
Proof.
  case_decide as Hh.
  - subst. apply occurrences_0. rewrite elem_of_Set_delete. tauto.
  - unfold occurrences, Set_delete. induction l as [|a l IH]; [done|].
    rewrite (filter_cons (λ y, y ≠ h)), (filter_cons (λ x, x = h') a l).
    destruct (decide (a ≠ h)) as [Ha|Ha].
    + rewrite filter_cons. destruct (decide (a = h')); simpl; by rewrite IH.
    + rewrite IH. destruct (decide (a = h')) as [->|]; [|done].
      destruct Ha. congruence.
Qed.

Lemma handlers_of_NoDup (w : World) (id : Z) (k : string) :
  Inv w → NoDup (handlers_of w id k).
Proof.
  intros HI. unfold handlers_of, registry.
  destruct (messageHandlers w !! id) as [r|]; simpl; [|constructor].
  destruct (handlerMaps w !! r) as [hm|] eqn:Hhm; simpl; [|constructor].
  destruct (hm !! k) as [l|] eqn:Hl; simpl; [|constructor].
  by eapply (inv_sets w HI).
Qed.

(** C8, as the code has it: the handlers of an (id, type) pair are kept in
    a [Set], so registering the same callback reference a second time has
    the effect of registering it once: the second call changes no state and
    returns an equal closure, the callback is held exactly once under
    (id, type), and every later event, so every inbound frame, is handled
    exactly as after a single registration.  In particular a frame of the
    registered type calls the callback exactly once when that type is not
    "all", the callback is not also registered as a wildcard, and the
    callbacks concerned return. *)
Theorem C8_duplicate_registration_collapsed throws
    (w : World) (id : Z) (t : string) (h : handler) :
  reachable throws w →
  let w1 := (onMessage id t h w).1 in
  let w2 := (onMessage id t h w1).1 in
  w2 = w1
  ∧ (onMessage id t h w1).2 = (onMessage id t h w).2
  ∧ occurrences h (handlers_of w2 id t) = 1%nat
  ∧ (∀ ws d, ev_message throws ws d w2 = ev_message throws ws d w1)
  ∧ (∀ l, run throws w2 l = run throws w1 l)
  ∧ (∀ ws s d m,
       sockets w2 !! ws = Some s → connectionId s = id → readyState s = OPEN →
       JSON_parse d = inr m → message_type m = inr (Some t) →
       t ≠ "all" → h ∉ handlers_of w2 id "all" →
       (∀ h', h' ∈ handlers_of w2 id t ∨ h' ∈ handlers_of w2 id "all" →
              throws h' m = false) →
       let calls := calls_for m (handlers_of w2 id t)
                    ++ calls_for m (handlers_of w2 id "all") in
       ev_message throws ws d w2 = with_invoked (λ l, l ++ calls) w2
       ∧ calls_to h calls = 1%nat).
Proof.
  intros Hreach w1 w2. pose proof (reachable_Inv _ _ Hreach) as HI.
  assert (E : w2 = w1) by (unfold w2, w1; by rewrite onMessage_twice).
  assert (Hocc : occurrences h (handlers_of w1 id t) = 1%nat).
  { apply occurrences_NoDup.
    - apply handlers_of_NoDup. by apply Inv_onMessage.
    - unfold w1. rewrite handlers_of_onMessage by apply (inv_reg w HI).
      rewrite decide_True by done. apply elem_of_Set_add. by left. }
  split_and!.
  - done.
  - unfold w1. by rewrite onMessage_twice.
  - by rewrite E.
  - intros ws d. by rewrite E.
  - intros l. by rewrite E.
  - rewrite E. intros ws s d m Hs Hid Ho Hp Ht Hna Hnw Hret calls. subst id.
    split; [by eapply ev_message_return|].
    unfold calls. rewrite calls_to_app, !calls_to_calls_for, Hocc.
    by rewrite (occurrences_0 h _ Hnw).
Qed.

Lemma C8_duplicate_registration_collapsed_witness :
  let w := run all_return init [Connect 1; Open 0] in
  (onMessage 1 "t" 7 (onMessage 1 "t" 7 w).1).1 = (onMessage 1 "t" 7 w).1.
Proof.
  pose (w := run all_return init [Connect 1; Open 0]).
  assert (Hr : reachable all_return w) by (by exists [Connect 1; Open 0]).
  destruct (C8_duplicate_registration_collapsed all_return w 1 "t" 7%nat Hr)
    as (H & _).
  exact H.
Defined.

(** C8, as stated, fails: callback 7 is registered twice for (1, "t") and a
    frame of type "t" arrives; the callback is called once. *)
Lemma C8_counterexample :
  let m := JObject [("type", JString "t")] in
  let w := run all_return init
             [Connect 1; Open 0; OnMessage 1 "t" 7; OnMessage 1 "t" 7;
              Message 0 (JSONText m)] in
  invoked w = [(7%nat, m)] ∧ calls_to 7 (invoked w) ≠ 2%nat.
Proof. split; [vm_compute; reflexivity|]. vm_compute. discriminate. Qed.

(** C9.  The closure returned by [onMessage(id, type, handler)], called in a
    state in which [id] still has the registry the closure was made for,
    removes that callback from the set of (id, type) and nothing else: every
    other callback of the set stays, in order; the sets of the other types
    and all other fields are untouched; a second call changes nothing.  A
    frame of that type then no longer calls the callback (unless it is also
    registered as a wildcard), and calls every other callback as before. *)
Theorem C9_cleanup_removes_handler throws
    (w w' : World) (id : Z) (t : string) (h : handler) :
  let tok := (onMessage id t h w).2 in
  let w'' := cleanup tok w' in
  messageHandlers w' !! id = Some (tok_handlers tok) →
  handlers_of w'' id t = Set_delete h (handlers_of w' id t)
  ∧ (h ∉ handlers_of w'' id t)
  ∧ (∀ h', h' ≠ h → (h' ∈ handlers_of w'' id t ↔ h' ∈ handlers_of w' id t))
  ∧ (∀ k, k ≠ t → handlers_of w'' id k = handlers_of w' id k)
  ∧ cleanup tok w'' = w''
  ∧ (connections w'' = connections w' ∧ sockets w'' = sockets w'
     ∧ subscribedChannels w'' = subscribedChannels w'
     ∧ messageHandlers w'' = messageHandlers w')
  ∧ (∀ ws s d m,
       sockets w'' !! ws = Some s → connectionId s = id → readyState s = OPEN →
       JSON_parse d = inr m → message_type m = inr (Some t) →
       (∀ h', h' ∈ handlers_of w'' id t ∨ h' ∈ handlers_of w'' id "all" →
              throws h' m = false) →
       let calls := calls_for m (handlers_of w'' id t)
                    ++ calls_for m (handlers_of w'' id "all") in
       ev_message throws ws d w'' = with_invoked (λ l, l ++ calls) w''
       ∧ (t = "all" ∨ h ∉ handlers_of w' id "all" → calls_to h calls = 0%nat)
       ∧ (∀ h', h' ≠ h →
            calls_to h' calls
              = (occurrences h' (handlers_of w' id t)
                 + occurrences h' (handlers_of w' id "all"))%nat)).
Proof.
  intros tok w'' Hmh.
  assert (Htok : tok_type tok = t ∧ tok_handler tok = h)
    by (unfold tok; by rewrite onMessage_token).
  destruct Htok as [Htt Hth].
  assert (Hof : ∀ k, handlers_of w'' id k
                     = if decide (k = t) then Set_delete h (handlers_of w' id k)
                       else handlers_of w' id k).
  { intros k. unfold w''. rewrite (handlers_of_cleanup tok w' id k Hmh).
    by rewrite Htt, Hth. }
  split_and!.
  - by rewrite Hof, decide_True.
  - rewrite Hof, decide_True by done. rewrite elem_of_Set_delete. tauto.
  - intros h' Hne. rewrite Hof, decide_True by done.
    rewrite elem_of_Set_delete. tauto.
  - intros k Hk. by rewrite Hof, decide_False.
  - apply cleanup_idemp.
  - done.
  - done.
  - done.
  - done.
  - intros ws s d m Hs Hid Ho Hp Ht Hret calls. subst id.
    split_and!; [by eapply ev_message_return|..].
    + intros Hcase. unfold calls. rewrite calls_to_app, !calls_to_calls_for.
      rewrite !Hof, decide_True by done.
      rewrite occurrences_Set_delete, decide_True by done.
      destruct (decide ("all" = t)) as [Heq|Hneq].
      * by rewrite occurrences_Set_delete, decide_True.
      * rewrite occurrences_0; [done|]. destruct Hcase; [congruence|done].
    + intros h' Hne. unfold calls. rewrite calls_to_app, !calls_to_calls_for.
      rewrite !Hof, decide_True by done.
      rewrite occurrences_Set_delete, decide_False by done.
      destruct (decide ("all" = t)) as [Heq|Hneq]; [|done].
      by rewrite occurrences_Set_delete, decide_False.
Qed.

Lemma C9_cleanup_removes_handler_witness :
  let w := run all_return init [OnMessage 1 "t" 3] in
  let r := onMessage 1 "t" 7 w in
  handlers_of r.1 1 "t" = [3; 7]%nat
  ∧ handlers_of (cleanup r.2 r.1) 1 "t" = [3]%nat.
Proof.
  pose (w := run all_return init [OnMessage 1 "t" 3]).
  pose (r := onMessage 1 "t" 7 w).
  destruct (C9_cleanup_removes_handler all_return w r.1 1 "t" 7%nat eq_refl)
    as (H & _).
  split; [vm_compute; reflexivity|].
  etrans; [exact H|]. vm_compute. reflexivity.
Defined.

(** A frame whose discriminant is the string "all" looks the wildcard set
    up twice, once as the set of its type and once as the wildcard set: when
    the wildcard callbacks return, every wildcard handler of the id is
    called twice for that one frame. *)
Lemma all_type_calls_wildcard_twice throws
    (w : World) (ws : nat) (s : WebSocket) (d : Payload) (m : JSValue) :
  reachable throws w →
  sockets w !! ws = Some s →
  readyState s = OPEN →
  JSON_parse d = inr m →
  message_type m = inr (Some "all") →
  (∀ h, h ∈ handlers_of w (connectionId s) "all" → throws h m = false) →
  let wild := handlers_of w (connectionId s) "all" in
  let calls := calls_for m wild ++ calls_for m wild in
  ev_message throws ws d w = with_invoked (λ l, l ++ calls) w
  ∧ (∀ h, h ∈ wild → calls_to h calls = 2%nat).
Proof.
  intros Hreach Hs Ho Hp Ht Hret wild calls.
  split.
  - eapply ev_message_return; try done. intros h [Hh|Hh]; by apply Hret.
  - intros h Hh. unfold calls. rewrite calls_to_app, !calls_to_calls_for.
    rewrite occurrences_NoDup; [done| |done].
    apply handlers_of_NoDup. by eapply reachable_Inv.
Qed.

Example all_type_calls_wildcard_twice_example :
  let m := JObject [("type", JString "all")] in
  let w := run all_return init [Connect 1; Open 0; OnMessage 1 "all" 8] in
  invoked (ev_message all_return 0 (JSONText m) w) = [(8%nat, m); (8%nat, m)].
Proof.
  pose (m := JObject [("type", JString "all")]).
  pose (w := run all_return init [Connect 1; Open 0; OnMessage 1 "all" 8]).
  assert (Hr : reachable all_return w)
    by (by exists [Connect 1; Open 0; OnMessage 1 "all" 8]).
  destruct (all_type_calls_wildcard_twice all_return w 0%nat
              {| connectionId := 1; readyState := OPEN; sent := [] |}
              (JSONText m) m Hr eq_refl eq_refl eq_refl eq_refl
              (λ _ _, eq_refl)) as (H & _).
  cbv zeta. fold m w. rewrite H. vm_compute. reflexivity.
Defined.

Example dispatch_by_type_example :
  let m := JObject [("type", JString "trade_event")] in
  let w := run all_return init
             [Connect 6; Open 0; OnMessage 6 "trade_event" 1;
              OnMessage 6 "price_update" 2; OnMessage 6 "all" 3] in
  invoked (ev_message all_return 0 (JSONText m) w) = [(1%nat, m); (3%nat, m)].
Proof.
  pose (m := JObject [("type", JString "trade_event")]).
  pose (w := run all_return init
               [Connect 6; Open 0; OnMessage 6 "trade_event" 1;
                OnMessage 6 "price_update" 2; OnMessage 6 "all" 3]).
  destruct (dispatch_by_type all_return w 0%nat
              {| connectionId := 6; readyState := OPEN; sent := [] |}
              (JSONText m) m "trade_event" eq_refl eq_refl eq_refl eq_refl)
    as (H & _).
  cbv zeta. fold m w. rewrite (H (λ _ _, eq_refl)). vm_compute. reflexivity.
Defined.

Lemma C7_malformed_frame_dropped_witness :
  let w := run all_return init [Connect 1; Open 0; OnMessage 1 "t" 7] in
  let w' := ev_message all_return 0 (NotJSON "oops") w in
  w' = with_console (λ l, l ++ [FailedToParse SyntaxError]) w
  ∧ isConnected 1 w' = true.
Proof.
  pose (w := run all_return init [Connect 1; Open 0; OnMessage 1 "t" 7]).
  destruct (C7_malformed_frame_dropped all_return w 0%nat
              {| connectionId := 1; readyState := OPEN; sent := [] |}
              "oops" eq_refl eq_refl) as (_ & H & _).
  split; [exact H|]. vm_compute. reflexivity.
Defined.

(** A closure whose registry was discarded by [disconnect] does not touch
    the registry the id has now. *)
Lemma cleanup_stale_token (tok : Token) (w : World) (id : Z) (k : string) :
  messageHandlers w !! id ≠ Some (tok_handlers tok) →
  handlers_of (cleanup tok w) id k = handlers_of w id k.
Proof.
  intros Hne. unfold handlers_of, registry, cleanup. simpl.
  destruct (messageHandlers w !! id) as [r|]; simpl; [|done].
  rewrite list_lookup_alter_ne; [done|]. congruence.
Qed.

(** The [try] block also encloses the calls of the callbacks: one that
    throws ends the dispatch of that frame, and the [catch] clause logs it
    as a parse failure.  Here callback 0 throws; callback 1, registered
    after it, and the wildcard callback 2 are not called. *)
Example throwing_handler_ends_dispatch :
  let throws : handler → JSValue → bool := λ h _, bool_decide (h = 0%nat) in
  let m := JObject [("type", JString "t")] in
  let w := run throws init
             [Connect 1; Open 0; OnMessage 1 "t" 0; OnMessage 1 "t" 1;
              OnMessage 1 "all" 2; Message 0 (JSONText m)] in
  invoked w = [(0%nat, m)] ∧ console w = [FailedToParse (HandlerError 0)].
Proof. vm_compute. done. Qed.

Lemma forEach_handler_app throws (hs1 hs2 : list handler) (m : JSValue) :
  forEach_handler throws (hs1 ++ hs2) m
    = match forEach_handler throws hs1 m with
      | (calls, Some e) => (calls, Some e)
      | (calls, None) =>
          let '(calls', e) := forEach_handler throws hs2 m in (calls ++ calls', e)
      end.
Proof.
  induction hs1 as [|h hs1 IH]; simpl.
  - by destruct (forEach_handler throws hs2 m).
  - destruct (throws h m); [done|]. rewrite IH.
    destruct (forEach_handler throws hs1 m) as [calls [e|]]; [done|].
    by destruct (forEach_handler throws hs2 m).
Qed.

(** The two [forEach] loops of [ws.onmessage] stand in one [try] block:
    together they behave as one loop over the handlers of the type followed
    by the wildcard handlers, which ends at the first callback that
    throws. *)
Lemma dispatch_until_first_throw throws (w : World) (id : Z) (d : Payload)
    (m : JSValue) (t : string) :
  JSON_parse d = inr m →
  message_type m = inr (Some t) →
  onmessage_try throws id d w
    = forEach_handler throws (handlers_of w id t ++ handlers_of w id "all") m.
Proof.
  intros Hp Ht. unfold onmessage_try. rewrite Hp.
  unfold handlers_of, registry.
  destruct (messageHandlers w !! id ≫= λ r, handlerMaps w !! r) as [hm|];
    simpl; [|done].
  rewrite Ht, forEach_handler_app. unfold call_handlers. simpl.
  destruct (hm !! t) as [hs|]; simpl; destruct (hm !! "all") as [hs'|]; simpl;
    try done;
    repeat match goal with
           | |- context [forEach_handler throws ?l m] =>
               destruct (forEach_handler throws l m) as [? [?|]]
           end; done.
Qed.

(** C5 (every handler of the type, then every wildcard handler, is
    invoked).  Callbacks 0 and 1 are registered for (1, "t"), in that
    order, and callback 2 under "all"; callback 0 throws.  A frame of type
    "t" calls callback 0 only: the exception leaves the first [forEach],
    skips the second, and is logged by the [catch] clause as a parse
    failure.  Callback 1, registered for exactly "t", and the wildcard
    callback 2 are not invoked. *)
Theorem C5_throwing_handler_ends_dispatch :
  let throws : handler → JSValue → bool := λ h _, bool_decide (h = 0%nat) in
  let m := JObject [("type", JString "t")] in
  let w := run throws init
             [Connect 1; Open 0; OnMessage 1 "t" 0; OnMessage 1 "t" 1;
              OnMessage 1 "all" 2] in
  let w' := ev_message throws 0 (JSONText m) w in
  handlers_of w 1 "t" = [0; 1]%nat
  ∧ handlers_of w 1 "all" = [2%nat]
  ∧ invoked w' = [(0%nat, m)]
  ∧ calls_to 1 (invoked w') = 0%nat
  ∧ calls_to 2 (invoked w') = 0%nat
  ∧ console w' = [FailedToParse (HandlerError 0)].
Proof. vm_compute. done. Qed.

(** C10 (a frame of type "all" invokes every wildcard handler twice).
    Callbacks 8 and 9 are registered under "all", in that order; callback 8
    throws.  A frame of type "all" calls callback 8 once, in the first
    [forEach]; the exception ends the dispatch, so callback 8 is not called
    a second time and callback 9 is not called at all. *)
Theorem C10_throwing_wildcard_called_once :
  let throws : handler → JSValue → bool := λ h _, bool_decide (h = 8%nat) in
  let m := JObject [("type", JString "all")] in
  let w := run throws init
             [Connect 1; Open 0; OnMessage 1 "all" 8; OnMessage 1 "all" 9] in
  let w' := ev_message throws 0 (JSONText m) w in
  handlers_of w 1 "all" = [8; 9]%nat
  ∧ invoked w' = [(8%nat, m)]
  ∧ calls_to 8 (invoked w') = 1%nat
  ∧ calls_to 9 (invoked w') = 0%nat
  ∧ console w' = [FailedToParse (HandlerError 8)].
Proof. vm_compute. done. Qed.

(** * Further properties *)

(** ** [unsubscribe] *)

Lemma remove_channels_filter (channelSet chs : list string) :
  remove_channels channelSet chs = filter (λ c, c ∉ chs) channelSet.
Proof.
  unfold remove_channels. revert channelSet.
  induction chs as [|ch chs IH]; intros channelSet; simpl.
  - induction channelSet as [|c l IHl]; [done|].
    rewrite filter_cons, decide_True by apply not_elem_of_nil. by f_equal.
  - rewrite IH. unfold Set_delete.
    induction channelSet as [|c l IHl]; [done|].
    rewrite (filter_cons (λ y, y ≠ ch)), (filter_cons (λ c0, c0 ∉ ch :: chs)).
    destruct (decide (c ≠ ch)) as [Hne|Heq].
    + rewrite filter_cons.
      destruct (decide (c ∉ chs)) as [Hc|Hc].
      * rewrite decide_True by (rewrite not_elem_of_cons; done). by f_equal.
      * rewrite decide_False by (rewrite not_elem_of_cons; tauto). done.
    + rewrite decide_False; [done|]. rewrite not_elem_of_cons.
      intros [Hc _]. by apply Heq.
Qed.

Lemma filter_add_channels (P : string → Prop) `{∀ c, Decision (P c)}
    (channelSet chs : list string) :
  (∀ c, c ∈ chs → ¬ P c) →
  filter P (add_channels channelSet chs) = filter P channelSet.
Proof.
  unfold add_channels. revert channelSet.
  induction chs as [|ch chs IH]; intros channelSet Hno; simpl; [done|].
  rewrite IH by (intros c Hc; apply Hno; by right).
  unfold Set_add. destruct (decide (ch ∈ channelSet)); [done|].
  rewrite filter_app, filter_cons, decide_False by (apply Hno; left).
  by rewrite filter_nil, app_nil_r.
Qed.

Lemma filter_all {A} (P : A → Prop) `{∀ x, Decision (P x)} (l : list A) :
  (∀ x, x ∈ l → P x) → filter P l = l.
Proof.
  induction l as [|a l IH]; intros Hall; [done|].
  rewrite filter_cons, decide_True by (apply Hall; left).
  f_equal. apply IH. intros x Hx. apply Hall. by right.
Qed.

Lemma unsubscribe_open (w : World) (id : Z) (chs : list string) (ws : nat) (s : WebSocket) :
  connections w !! id = Some ws →
  sockets w !! ws = Some s →
  readyState s = OPEN →
  unsubscribe id chs w
    = with_sockets (alter (push_frame (unsubscribe_frame chs)) ws)
        (with_subscribedChannels (alter (λ l, remove_channels l chs) id) w).
Proof.
  intros Hc Hs Ho. unfold unsubscribe, readyState_of. simpl.
  rewrite Hc. simpl. rewrite Hs. simpl. rewrite Ho.
  unfold ws_send. simpl. by rewrite Hs, Ho.
Qed.

Lemma isConnected_false_not_open (w : World) (id : Z) :
  isConnected id w = false →
  readyState_of w (connections w !! id) ≠ Some OPEN.
Proof. unfold isConnected. by destruct (readyState_of w (connections w !! id)) as [[]|]. Qed.

Lemma unsubscribe_not_open (w : World) (id : Z) (chs : list string) :
  isConnected id w = false →
  unsubscribe id chs w
    = with_subscribedChannels (alter (λ l, remove_channels l chs) id) w.
Proof.
  intros Hn. apply isConnected_false_not_open in Hn.
  unfold unsubscribe. simpl.
  change (readyState_of (with_subscribedChannels _ w) (connections w !! id))
    with (readyState_of w (connections w !! id)).
  destruct (readyState_of w (connections w !! id)) as [[]|];
    destruct (connections w !! id); done.
Qed.

(** X1.  On an open connection [unsubscribe(id, channels)] sends exactly one
    unsubscribe frame, listing the argument as given, removes those
    channels from the subscription set (the others keep their order), and
    leaves the transport open and registered, also when the set becomes
    empty. *)
Theorem X1_unsubscribe_open
    (w : World) (id : Z) (chs : list string) (ws : nat) (s : WebSocket) :
  connections w !! id = Some ws →
  sockets w !! ws = Some s →
  readyState s = OPEN →
  let w' := unsubscribe id chs w in
  sent_on w' ws = sent_on w ws ++ [unsubscribe_frame chs]
  ∧ subscribedChannels w' !! id
      = (λ l, filter (λ c, c ∉ chs) l) <$> subscribedChannels w !! id
  ∧ connections w' = connections w
  ∧ ready_states w' = ready_states w
  ∧ isConnected id w' = true
  ∧ reconnectTimeouts w' = reconnectTimeouts w
  ∧ pendingTimers w' = pendingTimers w.
Proof.
  intros Hc Hs Ho w'. unfold w'. rewrite (unsubscribe_open w id chs ws s) by done.
  split_and!; try done.
  - unfold sent_on. simpl. by rewrite list_lookup_alter_eq, Hs.
  - simpl. rewrite lookup_alter_eq.
    destruct (subscribedChannels w !! id); simpl; [|done].
    by rewrite remove_channels_filter.
  - unfold ready_states. simpl. apply list_eq. intros i.
    rewrite !list_lookup_fmap. destruct (decide (ws = i)) as [->|Hne].
    + by rewrite list_lookup_alter_eq, Hs.
    + by rewrite list_lookup_alter_ne.
  - unfold isConnected, readyState_of. simpl. rewrite Hc. simpl.
    rewrite list_lookup_alter_eq, Hs. simpl. by rewrite Ho.
Qed.

Lemma X1_unsubscribe_open_witness :
  let w := run all_return init [Connect 1; Open 0; Subscribe 1 ["a"; "b"]] in
  sent_on (unsubscribe 1 ["a"] w) 0
    = [subscribe_frame ["a"; "b"]; unsubscribe_frame ["a"]]
  ∧ subscribedChannels (unsubscribe 1 ["a"] w) !! 1%Z = Some ["b"].
Proof.
  pose (w := run all_return init [Connect 1; Open 0; Subscribe 1 ["a"; "b"]]).
  destruct (X1_unsubscribe_open w 1 ["a"] 0%nat
              {| connectionId := 1; readyState := OPEN;
                 sent := [subscribe_frame ["a"; "b"]] |}
              eq_refl eq_refl eq_refl) as (H1 & H2 & _).
  split; [etrans; [exact H1|]|etrans; [exact H2|]]; vm_compute; reflexivity.
Defined.

(** X2.  While the id is not connected, [unsubscribe] touches nothing but
    the subscription set: it opens no transport (unlike [subscribe]), sends
    nothing and arms no timer; on an id that has no subscription set it is
    the identity. *)
Theorem X2_unsubscribe_not_connected (w : World) (id : Z) (chs : list string) :
  isConnected id w = false →
  let w' := unsubscribe id chs w in
  sockets w' = sockets w
  ∧ connections w' = connections w
  ∧ reconnectTimeouts w' = reconnectTimeouts w
  ∧ pendingTimers w' = pendingTimers w
  ∧ messageHandlers w' = messageHandlers w
  ∧ (∀ id', id' ≠ id → subscribedChannels w' !! id' = subscribedChannels w !! id')
  ∧ (subscribedChannels w !! id = None → w' = w).
Proof.
  intros Hn w'. unfold w'. rewrite (unsubscribe_not_open w id chs Hn).
  split_and!; try done.
  - intros id' Hne. simpl. by rewrite lookup_alter_ne.
  - intros Hnone. unfold with_subscribedChannels.
    rewrite alter_id' by done. by destruct w.
Qed.

Lemma X2_unsubscribe_not_connected_witness :
  unsubscribe 7 ["prices"] init = init.
Proof.
  destruct (X2_unsubscribe_not_connected init 7 ["prices"] eq_refl)
    as (_ & _ & _ & _ & _ & _ & H).
  exact (H eq_refl).
Defined.

(** X3.  Subscription sets are plain sets, not reference counts:
    [unsubscribe(id, channels)] after [subscribe(id, channels)] leaves the
    set that was there before without the channels of the call, so a
    channel of the call is gone even if it was already subscribed (by
    another consumer) before; if none of them was, the set is what it was
    (empty if there was none). *)
Theorem X3_subscribe_then_unsubscribe (w : World) (id : Z) (chs : list string) :
  let old := default [] (subscribedChannels w !! id) in
  let w' := unsubscribe id chs (subscribe id chs w) in
  subscribedChannels w' !! id = Some (filter (λ c, c ∉ chs) old)
  ∧ (∀ c, c ∈ chs → c ∉ default [] (subscribedChannels w' !! id))
  ∧ ((∀ c, c ∈ chs → c ∉ old) → subscribedChannels w' !! id = Some old)
  ∧ (∀ id', id' ≠ id → subscribedChannels w' !! id' = subscribedChannels w !! id').
Proof.
  intros old w'.
  assert (E : subscribedChannels w' !! id = Some (filter (λ c, c ∉ chs) old)).
  { unfold w'. destruct (unsubscribe_fields id chs (subscribe id chs w)) as [-> _].
    rewrite lookup_alter_eq, subscribe_subscribedChannels, lookup_insert_eq. simpl.
    f_equal. fold (remove_channels (add_channels old chs) chs).
    rewrite remove_channels_filter. apply filter_add_channels.
    intros c Hc Hn. by apply Hn. }
  split_and!.
  - done.
  - intros c Hc. rewrite E. simpl. rewrite list_elem_of_filter. tauto.
  - intros Hdis. rewrite E. f_equal. apply filter_all.
    intros c Hc Hin. by apply (Hdis c Hin).
  - intros id' Hne. unfold w'.
    destruct (unsubscribe_fields id chs (subscribe id chs w)) as [-> _].
    rewrite lookup_alter_ne by done. rewrite subscribe_subscribedChannels.
    by rewrite lookup_insert_ne.
Qed.

(** ** [connect] when no transport is live *)

Lemma ws_close_not_live (r : nat) (w : World) :
  readyState_of w (Some r) ≠ Some OPEN →
  readyState_of w (Some r) ≠ Some CONNECTING →
  ws_close r w = w.
Proof.
  unfold readyState_of, ws_close. simpl.
  destruct (sockets w !! r) as [s|]; simpl; [|done].
  by destruct (readyState s).
Qed.

(** The fields of the state after [connect] on an id whose registered
    transport, if any, is neither connecting nor open. *)
Lemma connect_not_live (w : World) (id : Z) :
  readyState_of w (connections w !! id) ≠ Some OPEN →
  readyState_of w (connections w !! id) ≠ Some CONNECTING →
  let w' := connect id w in
  sockets w' = sockets w ++ [fresh_socket id]
  ∧ connections w' = <[id := length (sockets w)]> (connections w)
  ∧ reconnectTimeouts w' = delete id (reconnectTimeouts w)
  ∧ pendingTimers w'
      = match reconnectTimeouts w !! id with
        | Some t => delete t (pendingTimers w)
        | None => pendingTimers w
        end
  ∧ nextTimer w' = nextTimer w
  ∧ subscribedChannels w' = subscribedChannels w
  ∧ messageHandlers w' = messageHandlers w
  ∧ handlerMaps w' = handlerMaps w
  ∧ invoked w' = invoked w
  ∧ console w' = console w.
Proof.
  intros H1 H2 w'. unfold w', connect.
  assert (Hw1 : match connections w !! id with
                | Some r => ws_close r w
                | None => w
                end = w).
  { destruct (connections w !! id) as [r|]; [|done]. by apply ws_close_not_live. }
  destruct (readyState_of w (connections w !! id)) as [[]|]; try done;
    rewrite Hw1;
    destruct (reconnectTimeouts w !! id) as [t|] eqn:Ht; simpl;
    rewrite ?(delete_id _ _ Ht); done.
Qed.

Lemma readyState_of_live (w : World) (id : Z) :
  (readyState_of w (connections w !! id) = Some OPEN
   ∨ readyState_of w (connections w !! id) = Some CONNECTING)
  → ∃ ws s, connections w !! id = Some ws ∧ sockets w !! ws = Some s ∧ live s = true.
Proof.
  unfold readyState_of.
  destruct (connections w !! id) as [ws|] eqn:Hc; simpl; [|by intros [|]].
  destruct (sockets w !! ws) as [s|] eqn:Hs; simpl; [|by intros [|]].
  intros [[= H]|[= H]]; exists ws, s; unfold live; rewrite H; done.
Qed.

Lemma connect_cases (w : World) (id : Z) :
  (connect id w = w
   ∧ ∃ ws s, connections w !! id = Some ws ∧ sockets w !! ws = Some s ∧ live s = true)
  ∨ (readyState_of w (connections w !! id) ≠ Some OPEN
     ∧ readyState_of w (connections w !! id) ≠ Some CONNECTING).
Proof.
  destruct (readyState_of w (connections w !! id)) as [[]|] eqn:E;
    try (right; split; congruence); left.
  - split; [unfold connect; by rewrite E|]. apply readyState_of_live. auto.
  - split; [unfold connect; by rewrite E|]. apply readyState_of_live. auto.
Qed.

Lemma connect_has_live_transport (w : World) (id : Z) :
  Inv w → has_live_transport (connect id w) id.
Proof.
  intros HI. destruct (connect_cases w id) as [[-> (ws & s & Hc & Hs & Hl)]|[H1 H2]].
  - exists ws, s. split_and!; try done.
    destruct (inv_conn w HI id ws Hc) as (s' & Hs' & Hid). congruence.
  - destruct (connect_not_live w id H1 H2) as (Hso & Hco & _).
    exists (length (sockets w)), (fresh_socket id). rewrite Hso, Hco.
    split_and!; try done.
    + apply lookup_insert_eq.
    + rewrite lookup_app_r by done. by rewrite Nat.sub_diag.
Qed.

(** X4.  In every reachable state, [connect(id)] leaves [id] with a
    registered transport of its own that is connecting or open.  Either
    nothing changes (one was live already), or exactly one socket is
    created, the reconnect timer of [id] is cancelled and forgotten before
    the attempt, and nothing was sent.  The entries of other ids are
    untouched. *)
Theorem X4_connect_postcondition throws (w : World) (id : Z) :
  reachable throws w →
  let w' := connect id w in
  has_live_transport w' id
  ∧ (w' = w
     ∨ (sockets w' = sockets w ++ [fresh_socket id]
        ∧ connections w' !! id = Some (length (sockets w))
        ∧ reconnectTimeouts w' !! id = None
        ∧ (∀ t, reconnectTimeouts w !! id = Some t → pendingTimers w' !! t = None)))
  ∧ (∀ id', id' ≠ id →
       connections w' !! id' = connections w !! id'
       ∧ reconnectTimeouts w' !! id' = reconnectTimeouts w !! id').
Proof.
  intros Hreach w'. pose proof (reachable_Inv _ _ Hreach) as HI.
  split; [by apply connect_has_live_transport|].
  destruct (connect_cases w id) as [[E _]|[H1 H2]].
  - unfold w'. rewrite E. split; [by left|done].
  - destruct (connect_not_live w id H1 H2) as (Hso & Hco & Hrt & Hpt & _).
    fold w' in Hso, Hco, Hrt, Hpt. split.
    + right. rewrite Hso, Hco, Hrt, Hpt. split_and!; try done.
      * apply lookup_insert_eq.
      * apply lookup_delete_eq.
      * intros t Ht. rewrite Ht. apply lookup_delete_eq.
    + intros id' Hne. rewrite Hco, Hrt.
      by rewrite lookup_insert_ne, lookup_delete_ne.
Qed.

Lemma X4_connect_postcondition_witness :
  has_live_transport (connect 1 (run all_return init [Connect 1; Close 0])) 1.
Proof.
  assert (Hr : reachable all_return (run all_return init [Connect 1; Close 0]))
    by (by exists [Connect 1; Close 0]).
  destruct (X4_connect_postcondition all_return _ 1 Hr) as (H & _).
  exact H.
Defined.

(** ** [subscribe] before the connection is open *)

Lemma subscribe_not_open (w : World) (id : Z) (chs : list string) :
  isConnected id w = false →
  subscribe id chs w
    = connect id
        (with_subscribedChannels
           (insert id (add_channels (default [] (subscribedChannels w !! id)) chs)) w).
Proof.
  intros Hn. apply isConnected_false_not_open in Hn.
  assert (E : with_subscribedChannels
                (alter (λ channelSet, foldl (λ s ch, Set_add ch s) channelSet chs) id)
                (match subscribedChannels w !! id with
                 | Some _ => w
                 | None => with_subscribedChannels (insert id []) w
                 end)
              = with_subscribedChannels
                  (insert id (add_channels (default [] (subscribedChannels w !! id)) chs))
                  w).
  { unfold with_subscribedChannels.
    destruct (subscribedChannels w !! id) as [cs|] eqn:Hcs; simpl; f_equal;
      apply map_eq; intros i; destruct (decide (i = id)) as [->|Hne];
      by rewrite ?lookup_alter_eq, ?lookup_alter_ne, ?lookup_insert_eq,
           ?lookup_insert_ne, ?Hcs by done. }
  unfold subscribe. rewrite E.
  set (w0 := with_subscribedChannels _ w).
  assert (Hn0 : readyState_of w0 (connections w0 !! id) ≠ Some OPEN) by exact Hn.
  destruct (connections w0 !! id) as [r|];
    [destruct (readyState_of w0 (Some r)) as [[]|]|]; done.
Qed.

Lemma add_channels_not_nil (channelSet chs : list string) :
  chs ≠ [] → add_channels channelSet chs ≠ [].
Proof.
  destruct chs as [|c chs]; [done|]. intros _ E.
  assert (Hin : c ∈ add_channels channelSet (c :: chs))
    by (apply elem_of_add_channels; right; left).
  rewrite E in Hin. by apply elem_of_nil in Hin.
Qed.

Lemma isConnected_no_entry (w : World) (id : Z) :
  connections w !! id = None → isConnected id w = false.
Proof. intros Hc. unfold isConnected, readyState_of. by rewrite Hc. Qed.

(** X5.  [subscribe] as the only call: on an id with no registered
    transport, [subscribe(id, channels)] stores the channels, opens one
    connecting transport and sends nothing yet; the open event of that
    transport then sends exactly one subscribe frame, listing the whole
    set, and the id is connected. *)
Theorem X5_subscribe_connects_then_sends (w : World) (id : Z) (chs : list string) :
  connections w !! id = None →
  chs ≠ [] →
  let old := default [] (subscribedChannels w !! id) in
  let n := length (sockets w) in
  let w1 := subscribe id chs w in
  let w2 := ev_open n w1 in
  sockets w1 = sockets w ++ [fresh_socket id]
  ∧ connections w1 !! id = Some n
  ∧ subscribedChannels w1 !! id = Some (add_channels old chs)
  ∧ isConnected id w1 = false
  ∧ sockets w2 !! n
      = Some {| connectionId := id; readyState := OPEN;
                sent := [subscribe_frame (add_channels old chs)] |}
  ∧ isConnected id w2 = true.
Proof.
  intros Hc Hne old n w1 w2.
  pose proof (subscribe_not_open w id chs (isConnected_no_entry w id Hc)) as E.
  fold old w1 in E.
  set (w0 := with_subscribedChannels (insert id (add_channels old chs)) w) in E.
  assert (H1 : readyState_of w0 (connections w0 !! id) ≠ Some OPEN)
    by (unfold readyState_of, w0; simpl; by rewrite Hc).
  assert (H2 : readyState_of w0 (connections w0 !! id) ≠ Some CONNECTING)
    by (unfold readyState_of, w0; simpl; by rewrite Hc).
  destruct (connect_not_live w0 id H1 H2) as (Hso & Hco & _ & _ & _ & Hsub & _).
  rewrite <- E in Hso, Hco, Hsub.
  change (sockets w0) with (sockets w) in Hso, Hco.
  assert (Hn : sockets w1 !! n = Some (fresh_socket id)).
  { rewrite Hso, lookup_app_r by done. by rewrite Nat.sub_diag. }
  assert (Hs1 : subscribedChannels w1 !! id = Some (add_channels old chs)).
  { rewrite Hsub. unfold w0. simpl. apply lookup_insert_eq. }
  assert (Hcn : connections w1 !! id = Some n) by (rewrite Hco; apply lookup_insert_eq).
  assert (E2 : w2 = with_sockets
                     (alter (push_frame (subscribe_frame (add_channels old chs))) n)
                     (with_connections (insert id n)
                        (with_sockets (alter (set_readyState OPEN) n) w1))).
  { apply (ev_open_resubscribe w1 n (fresh_socket id)); try done.
    by apply add_channels_not_nil. }
  split_and!; try done.
  - unfold isConnected, readyState_of. by rewrite Hcn; simpl; rewrite Hn.
  - rewrite E2. simpl. by rewrite !list_lookup_alter_eq, Hn.
  - rewrite E2. unfold isConnected, readyState_of. simpl.
    rewrite lookup_insert_eq. simpl. by rewrite !list_lookup_alter_eq, Hn.
Qed.

Lemma X5_subscribe_connects_then_sends_witness :
  sockets (ev_open 0 (subscribe 6 ["portfolio"] init)) !! 0%nat
    = Some {| connectionId := 6; readyState := OPEN;
              sent := [subscribe_frame ["portfolio"]] |}.
Proof.
  assert (Hne : ["portfolio"] ≠ @nil string) by done.
  destruct (X5_subscribe_connects_then_sends init 6 ["portfolio"] eq_refl Hne)
    as (_ & _ & _ & _ & H & _).
  exact H.
Defined.

Lemma subscribe_connecting (w : World) (id : Z) (chs : list string) (ws : nat)
    (s : WebSocket) :
  connections w !! id = Some ws →
  sockets w !! ws = Some s →
  readyState s = CONNECTING →
  subscribe id chs w
    = with_subscribedChannels
        (insert id (add_channels (default [] (subscribedChannels w !! id)) chs)) w.
Proof.
  intros Hc Hs Hst. rewrite subscribe_not_open.
  - apply (connect_live_noop _ id ws s); try done. unfold live. by rewrite Hst.
  - unfold isConnected, readyState_of. rewrite Hc. simpl. rewrite Hs. simpl.
    by rewrite Hst.
Qed.

(** X6.  Calls of [subscribe] made while the transport of the id is still
    connecting only accumulate channels: no frame is sent and no second
    transport is opened; the open event then sends one subscribe frame
    that lists everything accumulated. *)
Theorem X6_subscribe_while_connecting throws
    (w : World) (id : Z) (chs1 chs2 : list string) (ws : nat) (s : WebSocket) :
  reachable throws w →
  connections w !! id = Some ws →
  sockets w !! ws = Some s →
  readyState s = CONNECTING →
  chs1 ≠ [] →
  let old := default [] (subscribedChannels w !! id) in
  let w2 := subscribe id chs2 (subscribe id chs1 w) in
  sockets w2 = sockets w
  ∧ connections w2 = connections w
  ∧ subscribedChannels w2 !! id = Some (add_channels (add_channels old chs1) chs2)
  ∧ sockets (ev_open ws w2) !! ws
      = Some {| connectionId := id; readyState := OPEN;
                sent := [subscribe_frame (add_channels (add_channels old chs1) chs2)] |}.
Proof.
  intros Hreach Hc Hs Hst Hne old w2.
  pose proof (reachable_Inv _ _ Hreach) as HI.
  destruct (inv_conn w HI id ws Hc) as (s' & Hs' & Hid).
  assert (s' = s) by congruence. subst s'.
  pose proof (inv_sent w HI) as Hsent. rewrite Forall_lookup in Hsent.
  specialize (Hsent ws s Hs Hst).
  assert (E1 : subscribe id chs1 w
               = with_subscribedChannels (insert id (add_channels old chs1)) w)
    by (by eapply subscribe_connecting).
  assert (E2 : w2 = with_subscribedChannels
                      (insert id (add_channels (add_channels old chs1) chs2))
                      (subscribe id chs1 w)).
  { unfold w2. rewrite (subscribe_connecting (subscribe id chs1 w) id chs2 ws s);
      rewrite ?E1; try done.
    simpl. by rewrite lookup_insert_eq. }
  rewrite E1 in E2.
  assert (Hsub : subscribedChannels w2 !! id
                 = Some (add_channels (add_channels old chs1) chs2)).
  { rewrite E2. simpl. apply lookup_insert_eq. }
  split_and!; [by rewrite E2|by rewrite E2|done|].
  rewrite (ev_open_resubscribe w2 ws s (add_channels (add_channels old chs1) chs2)).
  - simpl. rewrite !list_lookup_alter_eq, E2. simpl. rewrite Hs. simpl.
    unfold push_frame. simpl. by rewrite Hsent, Hid.
  - by rewrite E2.
  - done.
  - by rewrite Hid.
  - intros E. pose proof (elem_of_add_channels (add_channels old chs1) chs2) as Hel.
    destruct chs1 as [|c chs1]; [done|].
    assert (Hin : c ∈ add_channels (add_channels old (c :: chs1)) chs2).
    { apply Hel. left. apply elem_of_add_channels. right. left. }
    rewrite E in Hin. by apply elem_of_nil in Hin.
Qed.

Lemma X6_subscribe_while_connecting_witness :
  let w := run all_return init [Connect 1] in
  sockets (ev_open 0 (subscribe 1 ["b"] (subscribe 1 ["a"] w))) !! 0%nat
    = Some {| connectionId := 1; readyState := OPEN;
              sent := [subscribe_frame ["a"; "b"]] |}.
Proof.
  pose (w := run all_return init [Connect 1]).
  assert (Hr : reachable all_return w) by (by exists [Connect 1]).
  assert (Hne : ["a"] ≠ @nil string) by done.
  destruct (X6_subscribe_while_connecting all_return w 1 ["a"] ["b"] 0%nat
              (fresh_socket 1) Hr eq_refl eq_refl eq_refl Hne) as (_ & _ & _ & H).
  exact H.
Defined.

(** ** Losing the connection *)

Lemma ev_close_fields (w : World) (r : nat) (s : WebSocket) :
  sockets w !! r = Some s →
  readyState s ≠ CLOSED →
  let id := connectionId s in
  let w' := ev_close r w in
  sockets w' = alter (set_readyState CLOSED) r (sockets w)
  ∧ connections w' = delete id (connections w)
  ∧ reconnectTimeouts w' = <[id := nextTimer w]> (reconnectTimeouts w)
  ∧ pendingTimers w' = <[nextTimer w := id]> (pendingTimers w)
  ∧ nextTimer w' = S (nextTimer w)
  ∧ subscribedChannels w' = subscribedChannels w
  ∧ messageHandlers w' = messageHandlers w
  ∧ handlerMaps w' = handlerMaps w.
Proof.
  intros Hs Hst id w'. unfold w', ev_close. rewrite Hs.
  by destruct (readyState s).
Qed.

Lemma live_not_closed (s : WebSocket) : live s = true → readyState s ≠ CLOSED.
Proof. unfold live. by destruct (readyState s). Qed.

Lemma reconnect_round_live (w : World) (id : Z) :
  has_live_transport w id →
  let w' := reconnect_round id w in
  has_live_transport w' id
  ∧ connections w' !! id = Some (length (sockets w))
  ∧ sockets w' !! length (sockets w) = Some (fresh_socket id)
  ∧ length (sockets w') = S (length (sockets w))
  ∧ subscribedChannels w' = subscribedChannels w
  ∧ messageHandlers w' = messageHandlers w
  ∧ handlerMaps w' = handlerMaps w.
Proof.
  intros (ws & s & Hc & Hs & Hid & Hl) w'. unfold w', reconnect_round. rewrite Hc.
  destruct (close_then_timer w ws s Hs (live_not_closed s Hl))
    as (Hso & Hco & _ & Hsub & Hmh & Hhm).
  rewrite Hid in Hso, Hco.
  assert (Hnew : sockets (ev_timer (nextTimer w) (ev_close ws w)) !! length (sockets w)
                 = Some (fresh_socket id)).
  { rewrite Hso, lookup_app_r by (by rewrite length_alter).
    by rewrite length_alter, Nat.sub_diag. }
  split_and!; try done.
  - by exists (length (sockets w)), (fresh_socket id).
  - rewrite Hso, length_app, length_alter. simpl. lia.
Qed.

(** X7.  Reconnection has no attempt limit: however many times in a row
    the transport of an id is lost and its reconnect timer fires, the id
    ends with a fresh registered transport that is connecting; each round
    creates exactly one socket, and the subscription sets and handler
    registries are what they were. *)
Theorem X7_reconnect_unbounded (w : World) (id : Z) (n : nat) :
  has_live_transport w id →
  let w' := Nat.iter n (reconnect_round id) w in
  has_live_transport w' id
  ∧ length (sockets w') = (length (sockets w) + n)%nat
  ∧ ((0 < n)%nat →
     connections w' !! id = Some (length (sockets w) + n - 1)%nat
     ∧ sockets w' !! (length (sockets w) + n - 1)%nat = Some (fresh_socket id)
     ∧ isConnected id w' = false)
  ∧ subscribedChannels w' = subscribedChannels w
  ∧ messageHandlers w' = messageHandlers w
  ∧ handlerMaps w' = handlerMaps w.
Proof.
  intros Hlive. induction n as [|n IH]; simpl.
  - split_and!; try done; intros; lia.
  - destruct IH as (Hl & Hlen & _ & Hsub & Hmh & Hhm).
    destruct (reconnect_round_live _ id Hl) as (Hl' & Hc' & Hs' & Hlen' & Hsub' & Hmh' & Hhm').
    rewrite Hlen in Hc', Hs', Hlen'.
    replace (length (sockets w) + S n - 1)%nat with (length (sockets w) + n)%nat by lia.
    split_and!; try congruence; [lia|].
    intros _. split_and!; try done.
    unfold isConnected, readyState_of. rewrite Hc'. simpl. by rewrite Hs'.
Qed.

Lemma X7_reconnect_unbounded_witness :
  let w := run all_return init [Subscribe 1 ["a"]; Open 0] in
  length (sockets (Nat.iter 3 (reconnect_round 1) w)) = 4%nat
  ∧ subscribedChannels (Nat.iter 3 (reconnect_round 1) w) = subscribedChannels w.
Proof.
  pose (w := run all_return init [Subscribe 1 ["a"]; Open 0]).
  assert (Hl : has_live_transport w 1).
  { exists 0%nat, {| connectionId := 1; readyState := OPEN;
                     sent := [subscribe_frame ["a"]] |}.
    split_and!; vm_compute; reflexivity. }
  destruct (X7_reconnect_unbounded w 1 3 Hl) as (_ & H1 & _ & H2 & _).
  split; [exact H1|exact H2].
Defined.

(** X8.  An explicit [connect] supersedes the pending reconnect: after an
    unexpected close has armed the timer of the id, [connect(id)] cancels
    and forgets that timer and opens one transport; when the cancelled
    timer's time comes nothing happens, so no second transport is opened. *)
Theorem X8_connect_cancels_reconnect (w : World) (r : nat) (s : WebSocket) :
  sockets w !! r = Some s →
  readyState s ≠ CLOSED →
  let id := connectionId s in
  let t := nextTimer w in
  let w1 := ev_close r w in
  let w2 := connect id w1 in
  (reconnectTimeouts w1 !! id = Some t ∧ pendingTimers w1 !! t = Some id)
  ∧ reconnectTimeouts w2 !! id = None
  ∧ pendingTimers w2 !! t = None
  ∧ ev_timer t w2 = w2
  ∧ sockets w2 = alter (set_readyState CLOSED) r (sockets w) ++ [fresh_socket id]
  ∧ connections w2 !! id = Some (length (sockets w)).
Proof.
  intros Hs Hst id t w1 w2.
  destruct (ev_close_fields w r s Hs Hst) as (Hso & Hco & Hrt & Hpt & _).
  fold id w1 in Hso, Hco, Hrt, Hpt.
  assert (Hrt1 : reconnectTimeouts w1 !! id = Some t)
    by (rewrite Hrt; apply lookup_insert_eq).
  assert (H1 : readyState_of w1 (connections w1 !! id) ≠ Some OPEN)
    by (unfold readyState_of; by rewrite Hco, lookup_delete_eq).
  assert (H2 : readyState_of w1 (connections w1 !! id) ≠ Some CONNECTING)
    by (unfold readyState_of; by rewrite Hco, lookup_delete_eq).
  destruct (connect_not_live w1 id H1 H2) as (Hso2 & Hco2 & Hrt2 & Hpt2 & _).
  fold w2 in Hso2, Hco2, Hrt2, Hpt2. rewrite Hrt1 in Hpt2.
  assert (Hp : pendingTimers w2 !! t = None) by (rewrite Hpt2; apply lookup_delete_eq).
  split_and!.
  - done.
  - rewrite Hpt. apply lookup_insert_eq.
  - rewrite Hrt2. apply lookup_delete_eq.
  - done.
  - unfold ev_timer. by rewrite Hp.
  - by rewrite Hso2, Hso.
  - rewrite Hco2, Hso, length_alter. apply lookup_insert_eq.
Qed.

Lemma X8_connect_cancels_reconnect_witness :
  let w := run all_return init [Connect 1; Open 0] in
  ev_timer 1 (connect 1 (ev_close 0 w)) = connect 1 (ev_close 0 w).
Proof.
  pose (w := run all_return init [Connect 1; Open 0]).
  assert (Hst : OPEN ≠ CLOSED) by done.
  destruct (X8_connect_cancels_reconnect w 0%nat
              {| connectionId := 1; readyState := OPEN; sent := [] |}
              eq_refl Hst) as (_ & _ & _ & H & _).
  exact H.
Defined.

(** ** [isConnected] *)

Lemma ev_open_fields (w : World) (ws : nat) (s : WebSocket) :
  sockets w !! ws = Some s →
  readyState s = CONNECTING →
  connections (ev_open ws w) = <[connectionId s := ws]> (connections w)
  ∧ ∃ s', sockets (ev_open ws w) !! ws = Some s'
          ∧ connectionId s' = connectionId s ∧ readyState s' = OPEN.
Proof.
  intros Hs Hst.
  destruct (subscribedChannels w !! connectionId s) as [[|c cs]|] eqn:Hsub.
  - unfold ev_open. rewrite Hs, Hst. unfold onopen. simpl. rewrite Hsub.
    split; [done|]. simpl. rewrite list_lookup_alter_eq, Hs. by eexists.
  - rewrite (ev_open_resubscribe w ws s (c :: cs)) by done.
    split; [done|]. simpl. rewrite !list_lookup_alter_eq, Hs. by eexists.
  - rewrite (ev_open_silent w ws s) by done.
    split; [done|]. simpl. rewrite list_lookup_alter_eq, Hs. by eexists.
Qed.

Lemma ev_open_connected (w : World) (ws : nat) (s : WebSocket) :
  sockets w !! ws = Some s →
  readyState s = CONNECTING →
  isConnected (connectionId s) (ev_open ws w) = true.
Proof.
  intros Hs Hst.
  destruct (ev_open_fields w ws s Hs Hst) as (Hco & s' & Hs' & _ & Hst').
  unfold isConnected, readyState_of. rewrite Hco, lookup_insert_eq. simpl.
  rewrite Hs'. simpl. by rewrite Hst'.
Qed.

(** X9.  [isConnected(id)] follows the life of the transport: it is false
    while the id has no transport and while the transport is connecting,
    true once the open event has arrived, false again after the close
    event, and false after [disconnect(id)] in any state; in a reachable
    state it is true only if the id has a live transport of its own. *)
Theorem X9_isConnected_lifecycle throws (w : World) (id : Z) :
  connections w !! id = None →
  let n := length (sockets w) in
  isConnected id w = false
  ∧ isConnected id (connect id w) = false
  ∧ isConnected id (ev_open n (connect id w)) = true
  ∧ isConnected id (ev_close n (ev_open n (connect id w))) = false
  ∧ (∀ u, isConnected id (disconnect id u) = false)
  ∧ (∀ u, reachable throws u → isConnected id u = true → has_live_transport u id).
Proof.
  intros Hc n. subst n.
  assert (H1 : readyState_of w (connections w !! id) ≠ Some OPEN)
    by (unfold readyState_of; by rewrite Hc).
  assert (H2 : readyState_of w (connections w !! id) ≠ Some CONNECTING)
    by (unfold readyState_of; by rewrite Hc).
  destruct (connect_not_live w id H1 H2) as (Hso & Hco & _).
  assert (Hn : sockets (connect id w) !! length (sockets w) = Some (fresh_socket id)).
  { rewrite Hso, lookup_app_r by done. by rewrite Nat.sub_diag. }
  pose proof (ev_open_connected (connect id w) _ (fresh_socket id) Hn eq_refl) as Ho.
  simpl in Ho.
  split_and!.
  - by apply isConnected_no_entry.
  - unfold isConnected, readyState_of. rewrite Hco, lookup_insert_eq. simpl.
    by rewrite Hn.
  - done.
  - destruct (ev_open_fields (connect id w) _ (fresh_socket id) Hn eq_refl)
      as (_ & s' & Hs' & Hid' & Hst').
    assert (Hnc : readyState s' ≠ CLOSED) by (by rewrite Hst').
    destruct (ev_close_fields _ _ s' Hs' Hnc) as (_ & Hco' & _).
    apply isConnected_no_entry. rewrite Hco', Hid'. apply lookup_delete_eq.
  - intros u. apply isConnected_no_entry.
    destruct (disconnect_fields id u) as (-> & _). apply lookup_delete_eq.
  - intros u Hreach Hu. pose proof (reachable_Inv _ _ Hreach) as HI.
    unfold isConnected in Hu.
    destruct (readyState_of u (connections u !! id)) as [[]|] eqn:E; try done.
    destruct (readyState_of_live u id (or_introl E)) as (ws & s & Hcu & Hsu & Hl).
    destruct (inv_conn u HI id ws Hcu) as (s' & Hs' & Hid).
    exists ws, s. split_and!; try done. congruence.
Qed.

Lemma X9_isConnected_lifecycle_witness :
  isConnected 5 (ev_open 0 (connect 5 init)) = true
  ∧ isConnected 5 (ev_close 0 (ev_open 0 (connect 5 init))) = false.
Proof.
  destruct (X9_isConnected_lifecycle all_return init 5 eq_refl)
    as (_ & _ & H1 & H2 & _).
  split; [exact H1|exact H2].
Defined.

(** ** Registries of different ids *)

Lemma reg_inj_step throws (w : World) (i : Input) :
  Inv w → reg_inj (messageHandlers w) → reg_inj (messageHandlers (step throws w i)).
Proof.
  intros HI Hinj.
  destruct i as [id|id|id chs|id chs|id t h|tok| | | | | ];
    try (by rewrite lifecycle_messageHandlers).
  - cbn [step]. destruct (disconnect_fields id w) as (_ & _ & _ & -> & _).
    intros i1 i2 r H1 H2.
    apply lookup_delete_Some in H1 as [_ H1].
    apply lookup_delete_Some in H2 as [_ H2]. eauto.
  - cbn [step]. destruct (messageHandlers w !! id) as [r|] eqn:Hr.
    + by rewrite (onMessage_registered id t h w r Hr).
    + rewrite (onMessage_fresh id t h w Hr). simpl.
      intros i1 i2 r H1 H2.
      apply lookup_insert_Some in H1 as [[<- <-]|[Hn1 H1]];
        apply lookup_insert_Some in H2 as [[<- E2]|[Hn2 H2]]; try done.
      * pose proof (inv_reg w HI _ _ H2). lia.
      * pose proof (inv_reg w HI _ _ H1). lia.
      * eauto.
Qed.

Lemma reg_inj_run throws (l : list Input) (w : World) :
  Inv w → reg_inj (messageHandlers w) → reg_inj (messageHandlers (run throws w l)).
Proof.
  revert w. induction l as [|i l IH]; intros w HI Hinj; [done|].
  simpl. apply IH; [by apply Inv_step|by apply reg_inj_step].
Qed.

Lemma reachable_reg_inj throws (w : World) :
  reachable throws w → reg_inj (messageHandlers w).
Proof.
  intros [l ->]. apply reg_inj_run; [apply Inv_init|].
  intros i1 i2 r H1. simpl in H1. by rewrite lookup_empty in H1.
Qed.

Lemma registry_onMessage_other (w : World) (id id' : Z) (t : string) (h : handler) :
  Inv w → reg_inj (messageHandlers w) → id' ≠ id →
  registry (onMessage id' t h w).1 id = registry w id.
Proof.
  intros HI Hinj Hne. unfold registry.
  destruct (messageHandlers w !! id') as [r'|] eqn:Hr'.
  - rewrite (onMessage_registered id' t h w r' Hr'). simpl.
    destruct (messageHandlers w !! id) as [r|] eqn:Hr; simpl; [|done].
    rewrite list_lookup_alter_ne; [done|]. intros ->.
    by pose proof (Hinj _ _ _ Hr Hr').
  - rewrite (onMessage_fresh id' t h w Hr'). simpl.
    rewrite lookup_insert_ne by done.
    destruct (messageHandlers w !! id) as [r|] eqn:Hr; simpl; [|done].
    pose proof (inv_reg w HI _ _ Hr).
    rewrite list_lookup_alter_ne by lia. by rewrite lookup_app_l.
Qed.

Lemma registry_cleanup_other (tok : Token) (w : World) (id : Z) :
  messageHandlers w !! id ≠ Some (tok_handlers tok) →
  registry (cleanup tok w) id = registry w id.
Proof.
  intros Hne. unfold registry, cleanup. simpl.
  destruct (messageHandlers w !! id) as [r|]; simpl; [|done].
  rewrite list_lookup_alter_ne; [done|]. congruence.
Qed.

Lemma onmessage_try_registry throws (w w' : World) (id : Z) (d : Payload) :
  registry w' id = registry w id →
  onmessage_try throws id d w' = onmessage_try throws id d w.
Proof. unfold registry, onmessage_try. by intros ->. Qed.

(** X10.  Registries are per id: in a reachable state, registering a
    callback for another id, and later calling the closure that came back,
    leave the registry of [id] as it was, so the dispatch of any frame for
    [id] is the same before and after. *)
Theorem X10_registries_are_per_id throws
    (w : World) (id id' : Z) (t : string) (h : handler) :
  reachable throws w →
  id' ≠ id →
  let w1 := (onMessage id' t h w).1 in
  let w2 := cleanup (onMessage id' t h w).2 w1 in
  registry w1 id = registry w id
  ∧ registry w2 id = registry w id
  ∧ (∀ k, handlers_of w1 id k = handlers_of w id k
          ∧ handlers_of w2 id k = handlers_of w id k)
  ∧ (∀ d, onmessage_try throws id d w1 = onmessage_try throws id d w
          ∧ onmessage_try throws id d w2 = onmessage_try throws id d w).
Proof.
  intros Hreach Hne w1 w2.
  pose proof (reachable_Inv _ _ Hreach) as HI.
  pose proof (reachable_reg_inj _ _ Hreach) as Hinj.
  assert (E1 : registry w1 id = registry w id) by (by apply registry_onMessage_other).
  assert (E2 : registry w2 id = registry w id).
  { unfold w2. rewrite registry_cleanup_other; [done|]. intros Heq.
    pose proof (onMessage_messageHandlers id' t h w) as H'. fold w1 in H'.
    assert (Hinj1 : reg_inj (messageHandlers w1)).
    { apply (reachable_reg_inj throws).
      apply (reachable_step throws w (OnMessage id' t h) Hreach). }
    apply Hne. symmetry. by apply (Hinj1 _ _ _ Heq H'). }
  split_and!; try done.
  - intros k. unfold handlers_of. by rewrite E1, E2.
  - intros d. split; by apply onmessage_try_registry.
Qed.

Lemma X10_registries_are_per_id_witness :
  let w := run all_return init [OnMessage 6 "portfolio_update" 1] in
  handlers_of (onMessage 7 "portfolio_update" 2 w).1 6 "portfolio_update" = [1%nat].
Proof.
  pose (w := run all_return init [OnMessage 6 "portfolio_update" 1]).
  assert (Hr : reachable all_return w)
    by (by exists [OnMessage 6 "portfolio_update" 1]).
  assert (Hne : (7 ≠ 6)%Z) by done.
  destruct (X10_registries_are_per_id all_return w 6 7 "portfolio_update" 2%nat Hr Hne)
    as (_ & _ & H & _).
  destruct (H "portfolio_update") as [H1 _].
  etrans; [exact H1|]. vm_compute. reflexivity.
Defined.

(** ** Registering and removing a callback *)

Lemma Set_delete_Set_add {A} `{EqDecision A} (x : A) (l : list A) :
  Set_delete x (Set_add x l) = Set_delete x l.
Proof.
  unfold Set_delete, Set_add. destruct (decide (x ∈ l)); [done|].
  rewrite filter_app, filter_cons, decide_False by (intros Hx; by apply Hx).
  by rewrite filter_nil, app_nil_r.
Qed.

Lemma Set_delete_absent {A} `{EqDecision A} (x : A) (l : list A) :
  x ∉ l → Set_delete x l = l.
Proof.
  intros Hx. unfold Set_delete. apply filter_all. intros y Hy ->. by apply Hx.
Qed.

(** X11.  Registration and removal go by callback reference: calling the
    closure returned by [onMessage(id, type, handler)] right away leaves,
    for every type, the handlers that were there before, without [handler];
    so it undoes the registration exactly when the callback was new, and
    when the callback was registered before it removes that earlier
    registration as well. *)
Theorem X11_register_then_cleanup throws
    (w : World) (id : Z) (t : string) (h : handler) :
  reachable throws w →
  let w1 := (onMessage id t h w).1 in
  let w2 := cleanup (onMessage id t h w).2 w1 in
  handlers_of w1 id t = Set_add h (handlers_of w id t)
  ∧ handlers_of w2 id t = Set_delete h (handlers_of w id t)
  ∧ (∀ k, k ≠ t → handlers_of w2 id k = handlers_of w id k)
  ∧ (h ∉ handlers_of w id t → ∀ k, handlers_of w2 id k = handlers_of w id k).
Proof.
  intros Hreach w1 w2. pose proof (reachable_Inv _ _ Hreach) as HI.
  pose proof (onMessage_messageHandlers id t h w) as Hmh. fold w1 in Hmh.
  assert (Hon : ∀ k, handlers_of w1 id k
                     = if decide (k = t) then Set_add h (handlers_of w id t)
                       else handlers_of w id k)
    by (intros k; apply handlers_of_onMessage, (inv_reg w HI)).
  assert (Hcl : ∀ k, handlers_of w2 id k
                     = if decide (k = t) then Set_delete h (handlers_of w1 id k)
                       else handlers_of w1 id k).
  { intros k. unfold w2. rewrite (handlers_of_cleanup _ w1 id k Hmh).
    by rewrite onMessage_token. }
  assert (Ht : handlers_of w2 id t = Set_delete h (handlers_of w id t)).
  { rewrite Hcl, Hon, !decide_True by done. apply Set_delete_Set_add. }
  assert (Hk : ∀ k, k ≠ t → handlers_of w2 id k = handlers_of w id k).
  { intros k Hne. by rewrite Hcl, Hon, !decide_False. }
  split_and!; try done.
  - by rewrite Hon, decide_True.
  - intros Hnew k. destruct (decide (k = t)) as [->|Hne]; [|by apply Hk].
    rewrite Ht. by apply Set_delete_absent.
Qed.

Lemma X11_register_then_cleanup_witness :
  let w := run all_return init [OnMessage 1 "t" 3] in
  handlers_of (cleanup (onMessage 1 "t" 3 w).2 (onMessage 1 "t" 3 w).1) 1 "t" = [].
Proof.
  pose (w := run all_return init [OnMessage 1 "t" 3]).
  assert (Hr : reachable all_return w) by (by exists [OnMessage 1 "t" 3]).
  destruct (X11_register_then_cleanup all_return w 1 "t" 3%nat Hr) as (_ & H & _).
  etrans; [exact H|]. vm_compute. reflexivity.
Defined.

(** ** Frames without a usable discriminant *)

(** X12.  A frame that parses to a value with no string [type] (an object
    without the field or with a [type] that is not a string, a number, a
    string, an array) reaches the wildcard handlers only: each is called
    once, in order, and nothing else changes (callbacks return). *)
Theorem X12_untyped_frame_wildcard_only throws
    (w : World) (ws : nat) (s : WebSocket) (d : Payload) (m : JSValue) :
  sockets w !! ws = Some s →
  readyState s = OPEN →
  JSON_parse d = inr m →
  message_type m = inr None →
  (∀ h, h ∈ handlers_of w (connectionId s) "all" → throws h m = false) →
  ev_message throws ws d w
    = with_invoked (λ l, l ++ calls_for m (handlers_of w (connectionId s) "all")) w.
Proof.
  intros Hs Ho Hp Ht Hret. unfold ev_message. rewrite Hs, Ho.
  unfold onmessage, onmessage_try. rewrite Hp.
  unfold handlers_of, registry in *.
  destruct (messageHandlers w !! connectionId s ≫= λ r, handlerMaps w !! r) as [hm|];
    simpl in *; [|done].
  rewrite Ht. unfold call_handlers at 1. simpl.
  by rewrite call_handlers_return.
Qed.

Lemma X12_untyped_frame_wildcard_only_witness :
  let m := JObject [("price", JNumber 3); ("type", JNumber 5)] in
  let w := run all_return init
             [Connect 1; Open 0; OnMessage 1 "price_update" 1; OnMessage 1 "all" 2] in
  invoked (ev_message all_return 0 (JSONText m) w) = [(2%nat, m)].
Proof.
  pose (m := JObject [("price", JNumber 3); ("type", JNumber 5)]).
  pose (w := run all_return init
               [Connect 1; Open 0; OnMessage 1 "price_update" 1; OnMessage 1 "all" 2]).
  pose proof (X12_untyped_frame_wildcard_only all_return w 0%nat
                {| connectionId := 1; readyState := OPEN; sent := [] |}
                (JSONText m) m eq_refl eq_refl eq_refl eq_refl (λ _ _, eq_refl)) as H.
  cbv zeta. fold m w. rewrite H. vm_compute. reflexivity.
Defined.

(** X13.  The frame [null]: if the id has a registry, reading [message.type]
    throws inside the [try] block, so no handler is called, not even a
    wildcard one, and the frame is logged as a parse failure; if the id has
    no registry the frame is dropped without a trace.  In both cases the
    connection stays as it was. *)
Theorem X13_null_frame throws (w : World) (ws : nat) (s : WebSocket) (d : Payload) :
  sockets w !! ws = Some s →
  readyState s = OPEN →
  JSON_parse d = inr JNull →
  let id := connectionId s in
  let w' := ev_message throws ws d w in
  invoked w' = invoked w
  ∧ console w'
      = console w ++ match registry w id with
                     | Some _ => [FailedToParse TypeError]
                     | None => []
                     end
  ∧ sockets w' = sockets w
  ∧ connections w' = connections w
  ∧ reconnectTimeouts w' = reconnectTimeouts w.
Proof.
  intros Hs Ho Hp id w'. unfold w', ev_message. rewrite Hs, Ho.
  unfold onmessage, onmessage_try. rewrite Hp. fold id. unfold registry.
  destruct (messageHandlers w !! id ≫= λ r, handlerMaps w !! r) as [hm|]; simpl;
    by rewrite !app_nil_r.
Qed.

Lemma X13_null_frame_witness :
  let w := run all_return init [Connect 1; Open 0; OnMessage 1 "all" 2] in
  invoked (ev_message all_return 0 (JSONText JNull) w) = []
  ∧ console (ev_message all_return 0 (JSONText JNull) w) = [FailedToParse TypeError].
Proof.
  pose (w := run all_return init [Connect 1; Open 0; OnMessage 1 "all" 2]).
  destruct (X13_null_frame all_return w 0%nat
              {| connectionId := 1; readyState := OPEN; sent := [] |}
              (JSONText JNull) eq_refl eq_refl eq_refl) as (H1 & H2 & _).
  split; [etrans; [exact H1|]|etrans; [exact H2|]]; vm_compute; reflexivity.
Defined.

(** ** [disconnect] on an id the manager does not know *)

Lemma disconnect_unknown (w : World) (id : Z) :
  connections w !! id = None →
  reconnectTimeouts w !! id = None →
  messageHandlers w !! id = None →
  subscribedChannels w !! id = None →
  disconnect id w = w.
Proof.
  intros Hc Hrt Hmh Hsub. unfold disconnect. rewrite Hrt, Hc.
  unfold with_subscribedChannels, with_messageHandlers. simpl.
  rewrite !delete_id by done. by destruct w.
Qed.

(** X14.  [disconnect(id)] is safe on an id for which the manager holds
    nothing, where it is the identity, and calling it a second time changes
    nothing. *)
Theorem X14_disconnect_unknown_and_twice (w : World) (id : Z) :
  (connections w !! id = None → reconnectTimeouts w !! id = None →
   messageHandlers w !! id = None → subscribedChannels w !! id = None →
   disconnect id w = w)
  ∧ disconnect id (disconnect id w) = disconnect id w.
Proof.
  split; [apply disconnect_unknown|].
  destruct (disconnect_fields id w) as (Hc & Hrt & Hsub & Hmh & _).
  apply disconnect_unknown; rewrite ?Hc, ?Hrt, ?Hsub, ?Hmh; apply lookup_delete_eq.
Qed.

(** ** The [useWebSocket] hook *)

Lemma isConnected_true_open (w : World) (id : Z) :
  isConnected id w = true →
  ∃ ws s, connections w !! id = Some ws ∧ sockets w !! ws = Some s
          ∧ readyState s = OPEN.
Proof.
  unfold isConnected, readyState_of.
  destruct (connections w !! id) as [ws|] eqn:Hc; simpl; [|done].
  destruct (sockets w !! ws) as [s|] eqn:Hs; simpl; [|done].
  destruct (readyState s) eqn:E; try done. intros _. by exists ws, s.
Qed.

Lemma ready_states_push (l : list WebSocket) (ws : nat) (f : Frame) :
  readyState <$> alter (push_frame f) ws l = readyState <$> l.
Proof.
  apply list_eq. intros i. rewrite !list_lookup_fmap.
  destruct (decide (ws = i)) as [->|Hne].
  - rewrite list_lookup_alter_eq. by destruct (l !! i).
  - by rewrite list_lookup_alter_ne.
Qed.

(** [subscribe] on an id that has a live transport creates no transport. *)
Lemma subscribe_live (w : World) (id : Z) (chs : list string) :
  has_live_transport w id →
  connections (subscribe id chs w) = connections w
  ∧ ready_states (subscribe id chs w) = ready_states w
  ∧ reconnectTimeouts (subscribe id chs w) = reconnectTimeouts w
  ∧ pendingTimers (subscribe id chs w) = pendingTimers w.
Proof.
  intros (ws & s & Hc & Hs & _ & Hl). unfold live in Hl.
  destruct (readyState s) eqn:Hst; try done.
  - by rewrite (subscribe_connecting w id chs ws s).
  - rewrite (subscribe_open w id chs ws s) by done.
    split_and!; try done. apply ready_states_push.
Qed.

Lemma unsubscribe_keeps_transports (w : World) (id : Z) (chs : list string) :
  connections (unsubscribe id chs w) = connections w
  ∧ ready_states (unsubscribe id chs w) = ready_states w
  ∧ reconnectTimeouts (unsubscribe id chs w) = reconnectTimeouts w
  ∧ pendingTimers (unsubscribe id chs w) = pendingTimers w
  ∧ messageHandlers (unsubscribe id chs w) = messageHandlers w
  ∧ handlerMaps (unsubscribe id chs w) = handlerMaps w.
Proof.
  destruct (isConnected id w) eqn:E.
  - destruct (isConnected_true_open w id E) as (ws & s & Hc & Hs & Ho).
    rewrite (unsubscribe_open w id chs ws s) by done.
    split_and!; try done. apply ready_states_push.
  - by rewrite (unsubscribe_not_open w id chs E).
Qed.

Lemma mount_has_live_transport (w : World) (id : Z) (chs : list string) :
  Inv w →
  Inv (useWebSocket_mount id chs w)
  ∧ has_live_transport (useWebSocket_mount id chs w) id
  ∧ (length (sockets (useWebSocket_mount id chs w)) ≤ S (length (sockets w)))%nat.
Proof.
  intros HI. unfold useWebSocket_mount.
  set (w1 := if isConnected id w then w else connect id w).
  assert (H1 : Inv w1 ∧ has_live_transport w1 id
               ∧ (length (sockets w1) ≤ S (length (sockets w)))%nat).
  { unfold w1. destruct (isConnected id w) eqn:E.
    - split_and!; [done| |lia].
      destruct (isConnected_true_open w id E) as (ws & s & Hc & Hs & Ho).
      destruct (inv_conn w HI id ws Hc) as (s' & Hs' & Hid).
      exists ws, s. split_and!; try done; [congruence|].
      unfold live. by rewrite Ho.
    - split_and!; [by apply Inv_connect|by apply connect_has_live_transport|].
      destruct (connect_cases w id) as [[-> _]|[Ha Hb]]; [lia|].
      destruct (connect_not_live w id Ha Hb) as (-> & _).
      rewrite length_app. simpl. lia. }
  destruct H1 as (HI1 & Hl1 & Hlen1).
  destruct chs as [|c chs]; [done|].
  destruct (subscribe_live w1 id (c :: chs) Hl1) as (Hc & Hrs & _).
  destruct Hl1 as (ws & s & Hc1 & Hs1 & Hid1 & Hlive1).
  split_and!.
  - by apply Inv_subscribe.
  - assert (Hlk : readyState <$> sockets (subscribe id (c :: chs) w1) !! ws
                  = Some (readyState s)).
    { rewrite <- list_lookup_fmap. fold (ready_states (subscribe id (c :: chs) w1)).
      rewrite Hrs. unfold ready_states. by rewrite list_lookup_fmap, Hs1. }
    destruct (sockets (subscribe id (c :: chs) w1) !! ws) as [s2|] eqn:Hs2; [|done].
    injection Hlk as Hst2.
    assert (Hc2 : connections (subscribe id (c :: chs) w1) !! id = Some ws)
      by (by rewrite Hc).
    destruct (inv_conn _ (Inv_subscribe id (c :: chs) w1 HI1) id ws Hc2)
      as (s3 & Hs3 & Hid3).
    exists ws, s2. split_and!; try done; [congruence|].
    unfold live in *. by rewrite Hst2.
  - assert (length (ready_states (subscribe id (c :: chs) w1))
            = length (ready_states w1)) by (by rewrite Hrs).
    unfold ready_states in *. rewrite !length_fmap in *. lia.
Qed.

Lemma mount_live (w : World) (id : Z) (chs : list string) :
  has_live_transport w id →
  connections (useWebSocket_mount id chs w) = connections w
  ∧ ready_states (useWebSocket_mount id chs w) = ready_states w.
Proof.
  intros Hl. unfold useWebSocket_mount.
  assert (E : (if isConnected id w then w else connect id w) = w).
  { destruct (isConnected id w); [done|].
    destruct Hl as (ws & s & Hc & Hs & _ & Hlive). by eapply connect_live_noop. }
  rewrite E. destruct chs as [|c chs]; [done|].
  destruct (subscribe_live w id (c :: chs) Hl) as (? & ? & _). done.
Qed.

(** X15.  Components share the connection: in a reachable state, the mount
    effect of [useWebSocket] leaves the id with a live transport of its own
    and creates at most one socket; the mount effect of a second component
    for the same id (with any channels) creates none and changes neither
    the registered transports nor the ready state of any socket. *)
Theorem X15_mount_shares_connection throws
    (w : World) (id : Z) (chs1 chs2 : list string) :
  reachable throws w →
  let w1 := useWebSocket_mount id chs1 w in
  let w2 := useWebSocket_mount id chs2 w1 in
  has_live_transport w1 id
  ∧ (length (sockets w1) ≤ S (length (sockets w)))%nat
  ∧ has_live_transport w2 id
  ∧ length (sockets w2) = length (sockets w1)
  ∧ connections w2 = connections w1
  ∧ ready_states w2 = ready_states w1.
Proof.
  intros Hreach w1 w2. pose proof (reachable_Inv _ _ Hreach) as HI.
  destruct (mount_has_live_transport w id chs1 HI) as (HI1 & Hl1 & Hlen1).
  fold w1 in HI1, Hl1, Hlen1.
  destruct (mount_has_live_transport w1 id chs2 HI1) as (_ & Hl2 & _).
  destruct (mount_live w1 id chs2 Hl1) as (Hc & Hrs). fold w2 in Hc, Hrs, Hl2.
  split_and!; try done.
  assert (length (ready_states w2) = length (ready_states w1)) by (by rewrite Hrs).
  unfold ready_states in *. by rewrite !length_fmap in *.
Qed.

Lemma X15_mount_shares_connection_witness :
  let w1 := useWebSocket_mount 6 ["portfolio"] init in
  let w2 := useWebSocket_mount 6 ["prices"] w1 in
  length (sockets w2) = length (sockets w1) ∧ connections w2 = connections w1.
Proof.
  assert (Hr : reachable all_return init) by (by exists []).
  destruct (X15_mount_shares_connection all_return init 6 ["portfolio"] ["prices"] Hr)
    as (_ & _ & _ & H1 & H2 & _).
  split; [exact H1|exact H2].
Defined.

Lemma cleanup_handlers_subset (tok : Token) (w : World) (id : Z) (k : string) (h : handler) :
  h ∈ handlers_of (cleanup tok w) id k → h ∈ handlers_of w id k.
Proof.
  destruct (decide (messageHandlers w !! id = Some (tok_handlers tok))) as [E|E].
  - rewrite (handlers_of_cleanup tok w id k E). case_decide; [|done].
    rewrite elem_of_Set_delete. tauto.
  - by rewrite (cleanup_stale_token tok w id k E).
Qed.

Lemma cleanups_frame (toks : list Token) (w : World) :
  let w' := foldl (λ w' tok, cleanup tok w') w toks in
  connections w' = connections w
  ∧ sockets w' = sockets w
  ∧ reconnectTimeouts w' = reconnectTimeouts w
  ∧ pendingTimers w' = pendingTimers w
  ∧ messageHandlers w' = messageHandlers w
  ∧ subscribedChannels w' = subscribedChannels w.
Proof.
  revert w. induction toks as [|tok toks IH]; intros w; simpl; [done|].
  destruct (IH (cleanup tok w)) as (-> & -> & -> & -> & -> & ->). done.
Qed.

Lemma cleanups_handlers_subset (toks : list Token) (w : World) (id : Z) (k : string)
    (h : handler) :
  h ∈ handlers_of (foldl (λ w' tok, cleanup tok w') w toks) id k →
  h ∈ handlers_of w id k.
Proof.
  revert w. induction toks as [|tok toks IH]; intros w; simpl; [done|].
  intros Hh. apply IH in Hh. by apply cleanup_handlers_subset in Hh.
Qed.

Lemma cleanups_remove (toks : list Token) (w : World) (id : Z) (tok : Token) :
  tok ∈ toks →
  messageHandlers w !! id = Some (tok_handlers tok) →
  tok_handler tok
    ∉ handlers_of (foldl (λ w' tok, cleanup tok w') w toks) id (tok_type tok).
Proof.
  revert w. induction toks as [|tok0 toks IH]; intros w Hin Hmh;
    [by apply elem_of_nil in Hin|].
  simpl. apply elem_of_cons in Hin as [->|Hin].
  - intros Hh. apply cleanups_handlers_subset in Hh.
    rewrite (handlers_of_cleanup tok0 w id _ Hmh), decide_True in Hh by done.
    apply elem_of_Set_delete in Hh. tauto.
  - by apply IH.
Qed.

(** X16.  Unmounting a component does not disconnect: the cleanup of the
    mount effect (unsubscribe from the component's channels, then call the
    collected cleanup closures) closes no transport, opens none, arms and
    cancels no timer, so [isConnected] answers as before for every id; and
    each collected closure whose registry is still the id's has its callback
    removed. *)
Theorem X16_unmount_keeps_connection
    (w : World) (id : Z) (chs : list string) (cleanups : list Token) :
  let w' := useWebSocket_unmount id chs cleanups w in
  connections w' = connections w
  ∧ ready_states w' = ready_states w
  ∧ reconnectTimeouts w' = reconnectTimeouts w
  ∧ pendingTimers w' = pendingTimers w
  ∧ (∀ id', isConnected id' w' = isConnected id' w)
  ∧ (∀ id' tok, tok ∈ cleanups →
       messageHandlers w !! id' = Some (tok_handlers tok) →
       tok_handler tok ∉ handlers_of w' id' (tok_type tok)).
Proof.
  intros w'. unfold w', useWebSocket_unmount.
  set (w1 := match chs with [] => w | _ :: _ => unsubscribe id chs w end).
  assert (H1 : connections w1 = connections w ∧ ready_states w1 = ready_states w
               ∧ reconnectTimeouts w1 = reconnectTimeouts w
               ∧ pendingTimers w1 = pendingTimers w
               ∧ messageHandlers w1 = messageHandlers w).
  { unfold w1. destruct chs as [|c chs]; [done|].
    destruct (unsubscribe_keeps_transports w id (c :: chs)) as (? & ? & ? & ? & ? & _).
    done. }
  destruct H1 as (Hc1 & Hr1 & Ht1 & Hp1 & Hm1).
  destruct (cleanups_frame cleanups w1) as (Hc & Hs & Ht & Hp & Hm & _).
  assert (Hrs : ready_states (foldl (λ w' tok, cleanup tok w') w1 cleanups)
                = ready_states w) by (unfold ready_states in *; by rewrite Hs).
  split_and!; try congruence.
  - intros id'. unfold isConnected, readyState_of. rewrite Hc, Hc1.
    destruct (connections w !! id') as [r|]; simpl; [|done].
    rewrite <- !list_lookup_fmap.
    fold (ready_states (foldl (λ w' tok, cleanup tok w') w1 cleanups)).
    fold (ready_states w). by rewrite Hrs.
  - intros id' tok Hin Hmh. apply cleanups_remove; [done|]. by rewrite Hm1.
Qed.

(** ** Ids do not interfere *)

Lemma connect_keeps_sockets (w : World) (id : Z) (r : nat) (s : WebSocket) :
  sockets w !! r = Some s → sockets (connect id w) !! r = Some s.
Proof.
  intros Hs. destruct (connect_cases w id) as [[-> _]|[Ha Hb]]; [done|].
  destruct (connect_not_live w id Ha Hb) as (-> & _). by apply lookup_app_l_Some.
Qed.

Lemma connect_other_id (w : World) (id id' : Z) :
  id' ≠ id →
  connections (connect id w) !! id' = connections w !! id'
  ∧ reconnectTimeouts (connect id w) !! id' = reconnectTimeouts w !! id'.
Proof.
  intros Hne. destruct (connect_cases w id) as [[-> _]|[Ha Hb]]; [done|].
  destruct (connect_not_live w id Ha Hb) as (_ & -> & -> & _).
  by rewrite lookup_insert_ne, lookup_delete_ne.
Qed.

(** X17.  Calls for one id leave the others alone: in a reachable state,
    [connect], [subscribe] and [unsubscribe] on [id] change no socket that
    was created for another id (nothing is sent on it, its ready state
    stays), and leave the transport entry, the subscription set and the
    registry entry of every other id as they were. *)
Theorem X17_calls_leave_other_ids throws (w : World) (id : Z) (chs : list string) :
  reachable throws w →
  ∀ w', (w' = connect id w ∨ w' = subscribe id chs w ∨ w' = unsubscribe id chs w) →
    (∀ r s, sockets w !! r = Some s → connectionId s ≠ id → sockets w' !! r = Some s)
    ∧ (∀ id', id' ≠ id →
         connections w' !! id' = connections w !! id'
         ∧ subscribedChannels w' !! id' = subscribedChannels w !! id'
         ∧ messageHandlers w' !! id' = messageHandlers w !! id').
Proof.
  intros Hreach w' Hw'. pose proof (reachable_Inv _ _ Hreach) as HI.
  assert (Hown : ∀ ws r s, connections w !! id = Some ws → sockets w !! r = Some s →
                           connectionId s ≠ id → ws ≠ r).
  { intros ws r s Hc Hs Hne ->.
    destruct (inv_conn w HI id r Hc) as (s' & Hs' & Hid). congruence. }
  destruct Hw' as [-> | [-> | ->]].
  - split.
    + intros r s Hs _. by apply connect_keeps_sockets.
    + intros id' Hne. destruct (connect_other_id w id id' Hne) as [-> _].
      by rewrite connect_subscribedChannels, connect_messageHandlers.
  - destruct (isConnected id w) eqn:E.
    + destruct (isConnected_true_open w id E) as (ws & s0 & Hc & Hs0 & Ho).
      rewrite (subscribe_open w id chs ws s0) by done. split.
      * intros r s Hs Hne. simpl.
        rewrite list_lookup_alter_ne; [done|]. by eapply Hown.
      * intros id' Hne. simpl. by rewrite lookup_insert_ne.
    + rewrite (subscribe_not_open w id chs E). split.
      * intros r s Hs _. by apply connect_keeps_sockets.
      * intros id' Hne.
        destruct (connect_other_id
                    (with_subscribedChannels
                       (insert id (add_channels
                                     (default [] (subscribedChannels w !! id)) chs)) w)
                    id id' Hne) as [-> _].
        rewrite connect_subscribedChannels, connect_messageHandlers. simpl.
        by rewrite lookup_insert_ne.
  - destruct (isConnected id w) eqn:E.
    + destruct (isConnected_true_open w id E) as (ws & s0 & Hc & Hs0 & Ho).
      rewrite (unsubscribe_open w id chs ws s0) by done. split.
      * intros r s Hs Hne. simpl.
        rewrite list_lookup_alter_ne; [done|]. by eapply Hown.
      * intros id' Hne. simpl. by rewrite lookup_alter_ne.
    + rewrite (unsubscribe_not_open w id chs E). split; [done|].
      intros id' Hne. simpl. by rewrite lookup_alter_ne.
Qed.

Lemma X17_calls_leave_other_ids_witness :
  let w := run all_return init [Connect 6; Open 0; Connect 7; Open 1] in
  sockets (subscribe 7 ["prices"] w) !! 0%nat
    = Some {| connectionId := 6; readyState := OPEN; sent := [] |}.
Proof.
  pose (w := run all_return init [Connect 6; Open 0; Connect 7; Open 1]).
  assert (Hr : reachable all_return w)
    by (by exists [Connect 6; Open 0; Connect 7; Open 1]).
  destruct (X17_calls_leave_other_ids all_return w 7 ["prices"] Hr
              (subscribe 7 ["prices"] w) (or_intror (or_introl eq_refl))) as [H _].
  assert (Hne : (6 ≠ 7)%Z) by done.
  exact (H 0%nat {| connectionId := 6; readyState := OPEN; sent := [] |} eq_refl Hne).
Defined.

(** X18.  The events of a socket concern its own id only: the open, the
    message, the error and the close event of a socket created for [id]
    change no other socket, and leave the transport entry, the reconnect
    timer, the subscription set and the registry entry of every other id as
    they were. *)
Theorem X18_events_leave_other_ids throws (w : World) (ws : nat) (s : WebSocket)
    (d : Payload) :
  sockets w !! ws = Some s →
  ∀ w', (w' = ev_open ws w ∨ w' = ev_message throws ws d w
         ∨ w' = ev_error ws w ∨ w' = ev_close ws w) →
    (∀ r, r ≠ ws → sockets w' !! r = sockets w !! r)
    ∧ (∀ id', id' ≠ connectionId s →
         connections w' !! id' = connections w !! id'
         ∧ reconnectTimeouts w' !! id' = reconnectTimeouts w !! id'
         ∧ subscribedChannels w' !! id' = subscribedChannels w !! id'
         ∧ messageHandlers w' !! id' = messageHandlers w !! id').
Proof.
  intros Hs w' Hw'. destruct Hw' as [-> | [-> | [-> | ->]]].
  - destruct (decide (readyState s = CONNECTING)) as [Hst|Hst].
    + destruct (subscribedChannels w !! connectionId s) as [[|c cs]|] eqn:Hsub.
      * unfold ev_open. rewrite Hs, Hst. unfold onopen. simpl. rewrite Hsub. split.
        -- intros r Hr. simpl. by rewrite list_lookup_alter_ne.
        -- intros id' Hne. simpl. by rewrite lookup_insert_ne.
      * rewrite (ev_open_resubscribe w ws s (c :: cs)) by done. split.
        -- intros r Hr. simpl. by rewrite !list_lookup_alter_ne.
        -- intros id' Hne. simpl. by rewrite lookup_insert_ne.
      * rewrite (ev_open_silent w ws s) by done. split.
        -- intros r Hr. simpl. by rewrite list_lookup_alter_ne.
        -- intros id' Hne. simpl. by rewrite lookup_insert_ne.
    + unfold ev_open. rewrite Hs. by destruct (readyState s).
  - unfold ev_message. rewrite Hs. destruct (readyState s); try done.
    unfold onmessage.
    by destruct (onmessage_try throws (connectionId s) d w) as [calls [e|]].
  - unfold ev_error. rewrite Hs. by destruct (readyState s).
  - destruct (decide (readyState s = CLOSED)) as [Hst|Hst].
    + unfold ev_close. by rewrite Hs, Hst.
    + destruct (ev_close_fields w ws s Hs Hst) as (-> & -> & -> & _ & _ & -> & -> & _).
      split.
      * intros r Hr. by rewrite list_lookup_alter_ne.
      * intros id' Hne. by rewrite lookup_delete_ne, lookup_insert_ne.
Qed.

Lemma X18_events_leave_other_ids_witness :
  let w := run all_return init [Connect 6; Open 0; Connect 7; Open 1] in
  connections (ev_close 1 w) !! 6%Z = Some 0%nat.
Proof.
  pose (w := run all_return init [Connect 6; Open 0; Connect 7; Open 1]).
  destruct (X18_events_leave_other_ids all_return w 1%nat
              {| connectionId := 7; readyState := OPEN; sent := [] |}
              (NotJSON "x") eq_refl (ev_close 1 w)
              (or_intror (or_intror (or_intror eq_refl)))) as [_ H].
  assert (Hne : (6 ≠ 7)%Z) by done.
  destruct (H 6%Z Hne) as (H1 & _).
  etrans; [exact H1|]. vm_compute. reflexivity.
Defined.
